(** * serverless-esbuild: helper functions, archiver, dependency resolution

    A shallow embedding of [helper.ts] (path search, [zip], [nodeZip],
    [trimExtension]) and of the data types of [types.ts], together with the
    properties stated about them.

    Strings are Rocq strings (sequences of one-byte characters), indices and
    numbers are [Z], the file system is a finite map from absolute paths to
    nodes, and effectful code is written in a small state-and-error monad. *)

From Stdlib Require Import ZArith Ascii String List Bool Lia.
From stdpp Require Import base option gmap strings list fin_maps pretty.

Local Open Scope string_scope.
Local Open Scope list_scope.
Local Open Scope Z_scope.

(* ===================================================================== *)
(** * Part I: definitions *)
(* ===================================================================== *)

(** ** JavaScript string primitives *)

Module JS.

Definition len (s : string) : Z := Z.of_nat (String.length s).

(** [String.prototype.slice(start, end)]: negative positions count from
    the end of the string, everything is clamped to [0, length]. *)
Definition slice (s : string) (start stop : Z) : string :=
  let from := if start <? 0 then Z.max (len s + start) 0 else Z.min start (len s) in
  let to := if stop <? 0 then Z.max (len s + stop) 0 else Z.min stop (len s) in
  let span := Z.max (to - from) 0 in
  String.substring (Z.to_nat from) (Z.to_nat span) s.

Definition startsWithSlash (s : string) : bool :=
  match s with
  | String c _ => Ascii.eqb c "/"
  | EmptyString => false
  end.

Fixpoint endsWithSlash (s : string) : bool :=
  match s with
  | EmptyString => false
  | String c EmptyString => Ascii.eqb c "/"
  | String _ rest => endsWithSlash rest
  end.

End JS.

(** ** Node's [path] module (POSIX flavour)

    [extname] and [dirname] follow the right-to-left scans of Node's
    implementation; [normalize], [join], [resolve] and [basename] are given
    on path segments, which is what the character automaton of Node
    computes. *)

Module NodePath.

Definition isSlash (c : ascii) : bool := Ascii.eqb c "/".
Definition isDot (c : ascii) : bool := Ascii.eqb c ".".

(** State of the scan of [extname]. *)
Record ExtScan := mkExtScan {
  startDot : Z;
  startPart : Z;
  scanEnd : Z;
  matchedSlash : bool;
  preDotState : Z
}.

Definition extScan0 : ExtScan := mkExtScan (-1) 0 (-1) true 0.

(** One iteration per character, from index [n - 1] down to [0]; the
    [break] of the source ends the recursion. *)
Fixpoint extname_scan (path : string) (n : nat) (st : ExtScan) : ExtScan :=
  match n with
  | O => st
  | S i =>
    match String.get i path with
    | None => st
    | Some code =>
      if isSlash code then
        if negb (matchedSlash st)
        then mkExtScan (startDot st) (Z.of_nat i + 1) (scanEnd st)
                       (matchedSlash st) (preDotState st)
        else extname_scan path i st
      else
        let st1 :=
          if scanEnd st =? -1
          then mkExtScan (startDot st) (startPart st) (Z.of_nat i + 1) false
                         (preDotState st)
          else st in
        let st2 :=
          if isDot code then
            if startDot st1 =? -1
            then mkExtScan (Z.of_nat i) (startPart st1) (scanEnd st1)
                           (matchedSlash st1) (preDotState st1)
            else if negb (preDotState st1 =? 1)
            then mkExtScan (startDot st1) (startPart st1) (scanEnd st1)
                           (matchedSlash st1) 1
            else st1
          else if negb (startDot st1 =? -1)
          then mkExtScan (startDot st1) (startPart st1) (scanEnd st1)
                         (matchedSlash st1) (-1)
          else st1 in
        extname_scan path i st2
    end
  end.

Definition extname (path : string) : string :=
  let st := extname_scan path (String.length path) extScan0 in
  if (startDot st =? -1)
     || (scanEnd st =? -1)
     || (preDotState st =? 0)
     || ((preDotState st =? 1)
         && (startDot st =? scanEnd st - 1)
         && (startDot st =? startPart st + 1))
  then ""
  else JS.slice path (startDot st) (scanEnd st).

(** Scan of [dirname]: indices [n - 1] down to [1]; the result is the
    pair of [end] and [matchedSlash]. *)
Fixpoint dirname_scan (path : string) (n : nat) (matched : bool) : Z :=
  match n with
  | O => -1
  | S O => -1
  | S i =>
    match String.get i path with
    | None => -1
    | Some code =>
      if isSlash code then
        if negb matched then Z.of_nat i else dirname_scan path i matched
      else dirname_scan path i false
    end
  end.

Definition dirname (path : string) : string :=
  if (String.length path =? 0)%nat then "."
  else
    let hasRoot := JS.startsWithSlash path in
    let stop := dirname_scan path (String.length path) true in
    if stop =? -1 then (if hasRoot then "/" else ".")
    else if hasRoot && (stop =? 1) then "//"
    else JS.slice path 0 stop.

(** Segments of a path: the pieces between separators. *)
Fixpoint segments (s : string) : list string :=
  match s with
  | EmptyString => [""]
  | String c rest =>
    if isSlash c then "" :: segments rest
    else match segments rest with
         | seg :: segs => String c seg :: segs
         | [] => [String c ""]
         end
  end.

Definition unsegments (segs : list string) : string := String.concat "/" segs.

(** [normalizeString]: drops empty and [.] segments, lets [..] cancel the
    segment before it, and keeps a leading [..] only when the path may
    climb above its root. [acc] is the result so far, last segment first. *)
Fixpoint normalizeSegments (allowAboveRoot : bool) (segs acc : list string)
  : list string :=
  match segs with
  | [] => rev acc
  | seg :: rest =>
    if String.eqb seg "" || String.eqb seg "." then
      normalizeSegments allowAboveRoot rest acc
    else if String.eqb seg ".." then
      match acc with
      | top :: acc' =>
        if String.eqb top ".."
        then normalizeSegments allowAboveRoot rest
               (if allowAboveRoot then ".." :: acc else acc)
        else normalizeSegments allowAboveRoot rest acc'
      | [] =>
        normalizeSegments allowAboveRoot rest
          (if allowAboveRoot then [".."] else [])
      end
    else normalizeSegments allowAboveRoot rest (seg :: acc)
  end.

Definition normalizeString (path : string) (allowAboveRoot : bool) : string :=
  unsegments (normalizeSegments allowAboveRoot (segments path) []).

Definition normalize (path : string) : string :=
  if (String.length path =? 0)%nat then "."
  else
    let isAbsolute := JS.startsWithSlash path in
    let trailingSeparator := JS.endsWithSlash path in
    let p := normalizeString path (negb isAbsolute) in
    if (String.length p =? 0)%nat then
      if isAbsolute then "/" else if trailingSeparator then "./" else "."
    else
      let p' := if trailingSeparator then p +:+ "/" else p in
      if isAbsolute then "/" +:+ p' else p'.

Definition join (args : list string) : string :=
  match List.filter (fun a => negb (String.length a =? 0)%nat) args with
  | [] => "."
  | parts => normalize (String.concat "/" parts)
  end.

(** The loop of [resolve], over the arguments from the last one to the
    first one and then the working directory; it stops at the first
    absolute path. *)
Fixpoint resolveArgs (cwd : string) (revArgs : list string) : string * bool :=
  match revArgs with
  | [] =>
    if (String.length cwd =? 0)%nat then ("", false)
    else (cwd +:+ "/", JS.startsWithSlash cwd)
  | p :: rest =>
    if (String.length p =? 0)%nat then resolveArgs cwd rest
    else if JS.startsWithSlash p then (p +:+ "/", true)
    else let '(r, isAbs) := resolveArgs cwd rest in (r +:+ p +:+ "/", isAbs)
  end.

Definition resolve (cwd : string) (args : list string) : string :=
  let '(resolvedPath, resolvedAbsolute) := resolveArgs cwd (rev args) in
  let p := normalizeString resolvedPath (negb resolvedAbsolute) in
  if resolvedAbsolute then "/" +:+ p
  else if (0 <? String.length p)%nat then p else ".".

(** [path.parse(p).root] *)
Definition parseRoot (p : string) : string :=
  if JS.startsWithSlash p then "/" else "".

(** Last non-empty segment of a path. *)
Definition lastSegment (path : string) : string :=
  List.last (List.filter (fun s => negb (String.eqb s "")) (segments path)) "".

Definition endsWith (s suffix : string) : bool :=
  (String.length suffix <=? String.length s)%nat
  && String.eqb
       (String.substring (String.length s - String.length suffix)
          (String.length suffix) s)
       suffix.

(** [basename(path, suffix)]: the last segment, without [suffix] when the
    segment ends with it and is longer than it. *)
Definition basename (path suffix : string) : string :=
  let base := lastSegment path in
  if (0 <? String.length suffix)%nat && String.eqb suffix path then ""
  else if (0 <? String.length suffix)%nat
          && endsWith base suffix
          && negb (String.eqb base suffix)
  then String.substring 0 (String.length base - String.length suffix) base
  else base.

(** What the scan of [extname] keeps true on a path whose last character
    is not a separator: the end of the extension is the end of the path. *)
Definition scanInv (path : string) (n : nat) (st : ExtScan) : Prop :=
  ((scanEnd st = -1 /\ n = String.length path) \/ scanEnd st = JS.len path)
  /\ (startDot st = -1 \/ 0 <= startDot st < JS.len path).

(** Weight of a list of segments: every segment with the separator that
    follows it; [weightNonEmpty] leaves the empty segments out. *)
Definition weight (segs : list string) : nat :=
  fold_right (fun seg n => (String.length seg + 1 + n)%nat) 0%nat segs.

Definition weightNonEmpty (segs : list string) : nat :=
  weight (List.filter (fun seg => negb (String.eqb seg "")) segs).

End NodePath.

(** ** [trimExtension] *)

Definition trimExtension (entry : string) : string :=
  JS.slice entry 0 (- JS.len (NodePath.extname entry)).

(** ** [types.ts] *)

Record IFile := mkIFile { localPath : string; rootPath : string }.
Definition IFiles := list IFile.

(** ** The file system

    A finite map from absolute paths, in normal form, to nodes; an
    operation looks the path it is given up as it is. Only the entries
    themselves are tracked: a directory is there when it has an entry, and
    the root is one with or without an entry. A file carries its bytes,
    its mode and its modification time; the other fields of [fs.Stats] are
    never read by the code. *)

Module FileSystem.

Inductive Node :=
| File (data : string) (mode : Z) (mtime : Z)
| Directory (mode : Z) (mtime : Z).

Record Stats := mkStats { isDirectory : bool; statMode : Z; statMtime : Z }.

Definition statsOf (n : Node) : Stats :=
  match n with
  | File _ m t => mkStats false m t
  | Directory m t => mkStats true m t
  end.

Definition touch (now : Z) (n : Node) : Node :=
  match n with
  | File d m _ => File d m now
  | Directory m _ => Directory m now
  end.

(** A node without its timestamp: what two trees have in common when they
    hold the same content with the same permissions. *)
Definition timeless (n : Node) : Node := touch 0 n.

(** [p] is [dir] itself or lies below it. *)
Definition inside (dir p : string) : bool :=
  String.eqb p dir || String.prefix (dir +:+ "/") p.

(** The path that [p], inside [src], gets below [dst]. *)
Definition rebase (src dst p : string) : string :=
  dst +:+ String.substring (String.length src)
            (String.length p - String.length src) p.

Definition copyTree (now : Z) (src dst : string) (fs : gmap string Node)
  : gmap string Node :=
  map_fold
    (fun p n acc =>
       if inside src p then <[rebase src dst p := touch now n]> acc else acc)
    fs fs.

Definition removeTree (dir : string) (fs : gmap string Node)
  : gmap string Node :=
  filter (fun kv => inside dir kv.1 = false) fs.

Definition occupied (dir : string) (fs : gmap string Node) : bool :=
  negb (bool_decide (map_Forall (fun p _ => inside dir p = false) fs)).

(** A directory is at [path]: an entry that is a directory, or the root. *)
Definition isDirectoryAt (fs : gmap string Node) (path : string) : bool :=
  match fs !! path with
  | Some (Directory _ _) => true
  | Some (File _ _ _) => false
  | None => String.eqb path "/"
  end.

Definition defaultFileMode : Z := 420.
Definition defaultDirMode : Z := 493.

End FileSystem.
Import FileSystem.

(** ** Effects

    An effect runs on a file system and leaves a file system; it ends with
    a value, with an error, or never settles (a promise that is neither
    resolved nor rejected). *)

Inductive Error :=
| SystemError (syscall path : string)
| NoSuchElementException
| ArchiverError (message : string)
| NativeZipError (message : string)
| UnknownException (cause : Error).

Inductive Outcome (A : Type) :=
| Done (a : A)
| Fail (e : Error)
| Unsettled.
Arguments Done {A} a.
Arguments Fail {A} e.
Arguments Unsettled {A}.

Definition Eff (A : Type) : Type := gmap string Node -> Outcome A * gmap string Node.

Definition succeed {A} (a : A) : Eff A := fun fs => (Done a, fs).
Definition fail {A} (e : Error) : Eff A := fun fs => (Fail e, fs).

Definition andThen {A B} (m : Eff A) (k : A -> Eff B) : Eff B :=
  fun fs =>
    match m fs with
    | (Done a, fs') => k a fs'
    | (Fail e, fs') => (Fail e, fs')
    | (Unsettled, fs') => (Unsettled, fs')
    end.

Notation "x <- m ;; k" := (andThen m (fun x => k))
  (at level 100, m at next level, right associativity).
Notation "m ;;; k" := (andThen m (fun _ => k))
  (at level 100, right associativity).

(** [Effect.all(effects, { discard: true })] over [list.map(f)]: one after
    the other, stopping at the first failure. *)
Fixpoint forEach {A} (f : A -> Eff unit) (l : list A) : Eff unit :=
  match l with
  | [] => succeed tt
  | a :: rest => f a ;;; forEach f rest
  end.

(** [Effect.tryPromise]: a rejection becomes an [UnknownException]. *)
Definition tryPromise {A} (m : Eff A) : Eff A :=
  fun fs =>
    match m fs with
    | (Fail e, fs') => (Fail (UnknownException e), fs')
    | r => r
    end.

(** An exception thrown inside an event handler that nobody awaits: the
    promise the caller holds is never settled. *)
Definition unhandled {A} (m : Eff A) : Eff A :=
  fun fs =>
    match m fs with
    | (Fail _, fs') => (Unsettled, fs')
    | r => r
    end.

(** A promise that nothing settles. *)
Definition never {A} : Eff A := fun fs => (Unsettled, fs).

(** [Effect.scoped] around a resource made by [Effect.acquireRelease]: the
    finalizer runs when the scope closes, whether the body succeeded or
    failed. *)
Definition scoped {R A} (acquire : Eff R)
    (release : R -> gmap string Node -> gmap string Node)
    (use : R -> Eff A) : Eff A :=
  fun fs =>
    match acquire fs with
    | (Done r, fs1) =>
      match use r fs1 with
      | (Unsettled, fs2) => (Unsettled, fs2)
      | (o, fs2) => (o, release r fs2)
      end
    | (Fail e, fs1) => (Fail e, fs1)
    | (Unsettled, fs1) => (Unsettled, fs1)
    end.

(** ** Node's [fs] *)

Module NodeFs.

Definition stat (path : string) : Eff Stats :=
  fun fs =>
    match fs !! path with
    | Some n => (Done (statsOf n), fs)
    | None => (Fail (SystemError "stat" path), fs)
    end.

Definition readFileSync (path : string) : Eff string :=
  fun fs =>
    match fs !! path with
    | Some (File data _ _) => (Done data, fs)
    | _ => (Fail (SystemError "read" path), fs)
    end.

(** What a write stream emits first: [open] when its file is open, or
    [error] when the file could not be opened. *)
Inductive StreamEvent :=
| OpenEvent
| ErrorEvent (e : Error).

(** The file at [path] can be opened for writing: the folder of the path
    is a directory (otherwise [ENOENT] or [ENOTDIR]) and the path itself
    is none ([EISDIR]). *)
Definition opens (fs : gmap string Node) (path : string) : bool :=
  isDirectoryAt fs (NodePath.dirname path) && negb (isDirectoryAt fs path).

(** [fs.createWriteStream(path)]: the call returns the stream and never
    throws. The file is opened with flag [w], which creates it or
    truncates it; a failure to open is reported by the stream as its
    [error] event and leaves the tree as it is. *)
Definition createWriteStream (now : Z) (path : string) : Eff StreamEvent :=
  fun fs =>
    if opens fs path then
      match fs !! path with
      | Some (File _ m _) => (Done OpenEvent, <[path := File "" m now]> fs)
      | _ => (Done OpenEvent, <[path := File "" defaultFileMode now]> fs)
      end
    else (Done (ErrorEvent (SystemError "open" path)), fs).

(** Bytes that reached the file behind a write stream. *)
Definition written (now : Z) (path bytes : string) : Eff unit :=
  fun fs =>
    match fs !! path with
    | Some (File _ m _) => (Done tt, <[path := File bytes m now]> fs)
    | _ => (Done tt, <[path := File bytes defaultFileMode now]> fs)
    end.

End NodeFs.

(** ** [utils/effect-fs] *)

Module EffectFs.

(** Modelled from the spec: [safeFileExists] of [utils/effect-fs], the
    existence check of the file utilities; it answers [false] instead of
    failing. *)
Definition safeFileExists (fs : gmap string Node) (path : string) : bool :=
  bool_decide (is_Some (fs !! path)).

(** Modelled from the spec: [FS.copy] of [utils/effect-fs], the recursive
    path copy of the file utilities. A file is copied to the destination
    path, a directory with everything inside it; the copies carry the
    time of the copy. *)
Definition copy (now : Z) (src dst : string) : Eff unit :=
  fun fs =>
    match fs !! src with
    | None => (Fail (SystemError "copy" src), fs)
    | Some (File data m _) => (Done tt, <[dst := File data m now]> fs)
    | Some (Directory _ _) => (Done tt, copyTree now src dst fs)
    end.

(** Modelled from the spec: [makePath] of [utils/effect-fs], which
    prepares a folder: it creates the directory unless it is there. *)
Definition makePath (now : Z) (path : string) : Eff unit :=
  fun fs =>
    match fs !! path with
    | Some (File _ _ _) => (Fail (SystemError "mkdir" path), fs)
    | Some (Directory _ _) => (Done tt, fs)
    | None => (Done tt, <[path := Directory defaultDirMode now]> fs)
    end.

(** Modelled from the spec: the acquisition of [makeTempPathScoped] of
    [utils/effect-fs]: a freshly created directory below the temporary
    folder of the system. Nothing may be at that path yet. *)
Definition makeTempPath (tmpdir : string) (now : Z) (dirName : string)
  : Eff string :=
  fun fs =>
    let temp := NodePath.join [tmpdir; dirName] in
    if occupied temp fs then (Fail (SystemError "mkdir" temp), fs)
    else (Done temp, <[temp := Directory defaultDirMode now]> fs).

(** Modelled from the spec: [makeTempPathScoped] of [utils/effect-fs], the
    scoped temporary directory: it is removed, with everything inside it,
    when the scope closes. *)
Definition makeTempPathScoped {A} (tmpdir : string) (now : Z)
    (dirName : string) (use : string -> Eff A) : Eff A :=
  scoped (makeTempPath tmpdir now dirName) removeTree use.

End EffectFs.

(** ** [helper.ts] *)

Module Helper.

(** An entry handed to the zip writer: [zipArchive.append(data, { name,
    mode, date })], the date in milliseconds since the epoch. *)
Record ZipEntry := mkZipEntry {
  name : string;
  data : string;
  mode : option Z;
  date : Z
}.

(** What the writer streamed into its output: a complete archive, or the
    bytes that were out when it emitted [error]. *)
Inductive ArchiveStream :=
| Finalized (bytes : string)
| Errored (partial : string) (message : string).

Section Environment.

(** [process.cwd()] and [os.tmpdir()]. *)
Variable cwd : string.
Variable tmpdir : string.

(** The native zip utility behind [bestzip], called with the directory
    it works in and the destination; and the codec of [archiver]. Both
    are external to the code. *)
Variable bestzip : string -> string -> Eff unit.
Variable archiver : list ZipEntry -> ArchiveStream.

Definition rootOf (p : string) : string :=
  NodePath.parseRoot (NodePath.resolve cwd [p]).

Definition isPathRoot (p : string) : bool :=
  String.eqb (rootOf p) (NodePath.resolve cwd [p]).

(** [findUpEffect]: [Done dir] is [Option.some(dir)], a failure with
    [NoSuchElementException] is [Option.none()]. The recursion of the
    source is counted by [fuel]; [None] means that it ran out. *)
Fixpoint findUpEffect (fuel : nat) (names : list string)
    (directory : string) (fs : gmap string Node) : option (Outcome string) :=
  match fuel with
  | O => None
  | S fuel' =>
    let dir := NodePath.resolve cwd [directory] in
    let exist :=
      map (fun name => EffectFs.safeFileExists fs (NodePath.join [dir; name]))
          names in
    if existsb (fun b => b) exist then Some (Done dir)
    else if isPathRoot dir then Some (Fail NoSuchElementException)
    else findUpEffect fuel' names (NodePath.dirname dir) fs
  end.

(** The directories a search from [start] looks into: the start itself
    and, as long as it is not the root, the parent of one it looks into. *)
Inductive searchedFrom (start : string) : string -> Prop :=
| searched_start : searchedFrom start (NodePath.resolve cwd [start])
| searched_parent dir :
    searchedFrom start dir ->
    isPathRoot dir = false ->
    searchedFrom start (NodePath.resolve cwd [NodePath.dirname dir]).

(** Enough fuel for a search that starts in [directory]. *)
Definition searchFuel (directory : string) : nat :=
  S (String.length (NodePath.resolve cwd [directory])).

(** [Effect.orElseSucceed(() => undefined)], then [Effect.runSync]:
    [undefined] is [None]. *)
Definition orUndefined (r : Outcome string) : option string :=
  match r with
  | Done dir => Some dir
  | _ => None
  end.

(** [findUp(name)]: the directory defaults to [process.cwd()]. *)
Definition findUp (name : string) (fs : gmap string Node)
  : option (option string) :=
  orUndefined <$> findUpEffect (searchFuel cwd) [name] cwd fs.

Definition lockfiles : list string :=
  ["yarn.lock"; "pnpm-lock.yaml"; "package-lock.json"].

(** [findProjectRoot(rootDir?)]: [Effect.fromNullable(rootDir)], or
    else the search for a lock file. *)
Definition findProjectRoot (rootDir : option string) (fs : gmap string Node)
  : option (option string) :=
  match rootDir with
  | Some dir => Some (Some dir)
  | None => orUndefined <$> findUpEffect (searchFuel cwd) lockfiles cwd fs
  end.

(** The [pMap] over the files in [nodeZip]: the mode of every file that
    is not a directory, by [rootPath]. *)
Fixpoint collectModes (filesPathList : IFiles) (fileModes : gmap string Z)
  : Eff (gmap string Z) :=
  match filesPathList with
  | [] => succeed fileModes
  | file :: rest =>
    stats <- NodeFs.stat (rootPath file) ;;
    collectModes rest
      (if negb (isDirectory stats)
       then <[rootPath file := statMode stats]> fileModes
       else fileModes)
  end.

(** The [forEach] in the [open] handler of [nodeZip]. *)
Fixpoint appendEntries (fileModes : gmap string Z) (filesPathList : IFiles)
  : Eff (list ZipEntry) :=
  match filesPathList with
  | [] => succeed []
  | file :: rest =>
    let exists_ := bool_decide (is_Some (fileModes !! rootPath file)) in
    if negb exists_ then appendEntries fileModes rest
    else
      bytes <- NodeFs.readFileSync (rootPath file) ;;
      entries <- appendEntries fileModes rest ;;
      succeed (mkZipEntry (localPath file) bytes
                 (fileModes !! rootPath file) 0 :: entries)
  end.

(** [nodeZip], up to the last [append]: the write stream is made on
    [zipPath], the modes are collected (a [stat] that fails rejects the
    promise, whatever the stream does), and the [open] handler appends the
    entries. When the stream could not open its file, [open] is never
    emitted and the [error] of the stream has no listener (the promise
    listens to [close] of the stream and to [error] of the archive):
    nothing settles the promise. The event handlers are taken in the
    order in which the code expects them to run; the timing lines sent to
    [log.verbose] are left out. *)
Definition appended (now : Z) (zipPath : string) (filesPathList : IFiles)
  : Eff (list ZipEntry) :=
  output <- NodeFs.createWriteStream now zipPath ;;
  fileModes <- collectModes filesPathList ∅ ;;
  match output with
  | NodeFs.OpenEvent => unhandled (appendEntries fileModes filesPathList)
  | NodeFs.ErrorEvent _ => never
  end.

(** [nodeZip]: the entries are appended, the archive is finalized into the
    stream; the promise resolves on [close] of the stream and rejects on
    [error] of the archive. *)
Definition nodeZip (now : Z) (zipPath : string) (filesPathList : IFiles)
  : Eff unit :=
  entries <- appended now zipPath filesPathList ;;
  match archiver entries with
  | Finalized bytes => NodeFs.written now zipPath bytes
  | Errored partial message =>
    NodeFs.written now zipPath partial ;;; fail (ArchiverError message)
  end.

Definition tempDirName (now : Z) (zipPath : string) : string :=
  NodePath.basename zipPath (NodePath.extname zipPath) +:+ "-" +:+ pretty now.

Definition copyFileEffect (now : Z) (temp : string) (file : IFile) : Eff unit :=
  EffectFs.copy now (rootPath file) (NodePath.join [temp; localPath file]).

(** [zip]: [now] is what [Date.now()] answers. *)
Definition zip (now : Z) (zipPath : string) (filesPathList : IFiles)
    (useNativeZip : option bool) : Eff unit :=
  let bestZipEffect temp := tryPromise (bestzip temp zipPath) in
  let nodeZipEffect := tryPromise (nodeZip now zipPath filesPathList) in
  EffectFs.makeTempPathScoped tmpdir now (tempDirName now zipPath)
    (fun temp =>
       forEach (copyFileEffect now temp) filesPathList ;;;
       EffectFs.makePath now (NodePath.dirname zipPath) ;;;
       match useNativeZip with
       | Some true => bestZipEffect temp
       | _ => nodeZipEffect
       end).

(** The directory that [zip] stages into, the tree once that directory is
    made, and the two steps that [zip] takes in it. *)
Definition stagingDir (now : Z) (zipPath : string) : string :=
  NodePath.join [tmpdir; tempDirName now zipPath].

Definition acquired (now : Z) (zipPath : string) (fs : gmap string Node)
  : gmap string Node :=
  <[stagingDir now zipPath := Directory defaultDirMode now]> fs.

Definition staging (now : Z) (temp : string) (filesPathList : IFiles) : Eff unit :=
  forEach (copyFileEffect now temp) filesPathList.

Definition archiving (now : Z) (zipPath : string) (filesPathList : IFiles)
    (useNativeZip : option bool) (temp : string) : Eff unit :=
  match useNativeZip with
  | Some true => tryPromise (bestzip temp zipPath)
  | _ => tryPromise (nodeZip now zipPath filesPathList)
  end.

(** The ways a call of [zip] can go, with the outcome and the tree that
    it leaves. *)
Inductive ZipRun (now : Z) (zipPath : string) (filesPathList : IFiles)
    (useNativeZip : option bool) (fs : gmap string Node)
  : Outcome unit -> gmap string Node -> Prop :=
| run_occupied :
    occupied (stagingDir now zipPath) fs = true ->
    ZipRun now zipPath filesPathList useNativeZip fs
      (Fail (SystemError "mkdir" (stagingDir now zipPath))) fs
| run_copy_failed e fs1 :
    occupied (stagingDir now zipPath) fs = false ->
    staging now (stagingDir now zipPath) filesPathList (acquired now zipPath fs)
    = (Fail e, fs1) ->
    ZipRun now zipPath filesPathList useNativeZip fs
      (Fail e) (removeTree (stagingDir now zipPath) fs1)
| run_makePath_failed staged e :
    occupied (stagingDir now zipPath) fs = false ->
    staging now (stagingDir now zipPath) filesPathList (acquired now zipPath fs)
    = (Done tt, staged) ->
    EffectFs.makePath now (NodePath.dirname zipPath) staged = (Fail e, staged) ->
    ZipRun now zipPath filesPathList useNativeZip fs
      (Fail e) (removeTree (stagingDir now zipPath) staged)
| run_archived staged prepared o fs3 :
    occupied (stagingDir now zipPath) fs = false ->
    staging now (stagingDir now zipPath) filesPathList (acquired now zipPath fs)
    = (Done tt, staged) ->
    EffectFs.makePath now (NodePath.dirname zipPath) staged = (Done tt, prepared) ->
    archiving now zipPath filesPathList useNativeZip (stagingDir now zipPath) prepared
    = (o, fs3) ->
    o <> Unsettled ->
    ZipRun now zipPath filesPathList useNativeZip fs
      o (removeTree (stagingDir now zipPath) fs3)
| run_unsettled staged prepared fs3 :
    occupied (stagingDir now zipPath) fs = false ->
    staging now (stagingDir now zipPath) filesPathList (acquired now zipPath fs)
    = (Done tt, staged) ->
    EffectFs.makePath now (NodePath.dirname zipPath) staged = (Done tt, prepared) ->
    archiving now zipPath filesPathList useNativeZip (stagingDir now zipPath) prepared
    = (Unsettled, fs3) ->
    ZipRun now zipPath filesPathList useNativeZip fs Unsettled fs3.

(** The archive and the sources lie outside the staging directory, and
    every file is staged inside it. *)
Definition wellSeparated (now : Z) (zipPath : string) (filesPathList : IFiles)
  : Prop :=
  inside (stagingDir now zipPath) zipPath = false
  /\ forall file, In file filesPathList ->
       inside (stagingDir now zipPath) (rootPath file) = false
       /\ inside (stagingDir now zipPath)
            (NodePath.join [stagingDir now zipPath; localPath file]) = true.

End Environment.

(** The entries of an archive of [files] over the tree [fs]: one for every
    file that is not a directory, named by its [localPath], with the bytes
    and the mode found at its [rootPath], dated at the epoch. *)
Definition entriesOf (fs : gmap string Node) (files : IFiles) : list ZipEntry :=
  flat_map
    (fun file =>
       match fs !! rootPath file with
       | Some (File bytes m _) => [mkZipEntry (localPath file) bytes (Some m) 0]
       | _ => []
       end)
    files.

(** The root path of a file holds a file, not a directory. *)
Definition isRegular (fs : gmap string Node) (file : IFile) : bool :=
  match fs !! rootPath file with
  | Some (File _ _ _) => true
  | _ => false
  end.

(** The bytes of the file at a path. *)
Definition fileData (fs : gmap string Node) (path : string) : option string :=
  match fs !! path with
  | Some (File bytes _ _) => Some bytes
  | _ => None
  end.

(** The tree once [fs.createWriteStream] has opened [zipPath]. *)
Definition opened (now : Z) (zipPath : string) (fs : gmap string Node)
  : gmap string Node :=
  match fs !! zipPath with
  | Some (File _ m _) => <[zipPath := File "" m now]> fs
  | _ => <[zipPath := File "" defaultFileMode now]> fs
  end.

(** The mode [collectModes] records for a path. *)
Definition recordedMode (fs : gmap string Node) (path : string) : option Z :=
  match fs !! path with
  | Some (File _ m _) => Some m
  | _ => None
  end.

(** Where [zip] stages a file. *)
Definition stagedPath (temp : string) (file : IFile) : string :=
  NodePath.join [temp; localPath file].

End Helper.

(** ** Sample data *)

Module Sample.
Import Helper.

(** A project with a script, an executable and a directory. *)
Definition tree : gmap string Node :=
  <["/proj/a.js" := File "AAA" 420 11]>
    (<["/proj/run.sh" := File "#!" 493 12]>
       (<["/proj/lib" := Directory 493 5]>
          (<["/proj/lib/x.js" := File "X" 420 6]> ∅))).

(** The same project, touched later. *)
Definition touchedTree : gmap string Node :=
  <["/proj/a.js" := File "AAA" 420 9911]>
    (<["/proj/run.sh" := File "#!" 493 9912]>
       (<["/proj/lib" := Directory 493 9905]>
          (<["/proj/lib/x.js" := File "X" 420 9906]> ∅))).

Definition files : IFiles :=
  [mkIFile "a.js" "/proj/a.js"; mkIFile "bin/run.sh" "/proj/run.sh";
   mkIFile "lib" "/proj/lib"].

Definition libOnly : IFiles := [mkIFile "lib" "/proj/lib"].

(** A codec that lists names and bytes, one that breaks after two bytes,
    and a native utility that fails. *)
Definition listing (entries : list ZipEntry) : ArchiveStream :=
  Finalized
    (String.concat "|" (map (fun e => name e +:+ "=" +:+ data e) entries)).

Definition broken (entries : list ZipEntry) : ArchiveStream :=
  Errored "PK" "write failed".

Definition noNative (cwd destination : string) : Eff unit :=
  fail (NativeZipError "zip: not found").

(** The project on a disk that has the folders [/proj] and [/out]. *)
Definition disk : gmap string Node :=
  <["/proj" := Directory 493 1]> (<["/out" := Directory 493 2]> tree).

(** A native utility in the manner of [zip -r]: it stores every file below
    the directory it works in under its path in that directory, with its
    bytes and, as the zip format has it, with its modification time. The
    time of the archive file itself plays no role and is left at 0. *)
Definition storing (cwd destination : string) : Eff unit :=
  fun fs =>
    let stored :=
      omap (fun kv =>
              match kv.2 with
              | File bytes _ t =>
                if String.prefix (cwd +:+ "/") kv.1
                then Some (String.substring (S (String.length cwd))
                             (String.length kv.1 - S (String.length cwd)) kv.1
                           +:+ "=" +:+ bytes +:+ "@" +:+ pretty t)
                else None
              | Directory _ _ => None
              end)
           (map_to_list fs) in
    NodeFs.written 0 destination (String.concat "|" stored) fs.

End Sample.

(** ** Dependency trees ([types.ts]) *)

#[warnings="-register-all"]
Inductive DependencyTree :=
| mkDependencyTree (version : string)
    (dependencies : option (list (string * DependencyTree)))
    (isRootDep : option bool).

Definition DependencyMap := list (string * DependencyTree).

Definition version (t : DependencyTree) : string :=
  match t with mkDependencyTree v _ _ => v end.
Definition dependencies (t : DependencyTree) : option DependencyMap :=
  match t with mkDependencyTree _ d _ => d end.
Definition isRootDep (t : DependencyTree) : option bool :=
  match t with mkDependencyTree _ _ r => r end.

(** ** The dependency resolver *)

Module DependencyResolver.

(** Modelled from the spec: the errors of the dependency resolver. *)
Inductive ResolveError :=
| DependencyTreeUnavailableError
| VersionConflictError (package kept requested : string).

(** Modelled from the spec: the accumulated mapping from package name to
    version, and the diagnostics recorded for version conflicts. *)
Record Resolution := mkResolution {
  resolved : gmap string string;
  diagnostics : list (string * string * string)
}.

(** Modelled from the spec: a node is hoisted when it carries
    [isRootDep = true]. *)
Definition hoisted (node : DependencyTree) : bool :=
  match isRootDep node with
  | Some true => true
  | _ => false
  end.

(** Modelled from the spec: the walk of the dependency resolver, whose
    source is not part of the files at hand. A node that carries
    [isRootDep = true] is left out with everything below it; a package
    that is already in the accumulated map is not visited again (with
    another version this is a conflict: the first version is kept and a
    diagnostic is recorded, or the resolution fails in strict mode);
    otherwise the package is recorded with its version and the walk goes
    on into its own dependencies. *)
Fixpoint visit (strict : bool) (package : string) (node : DependencyTree)
    (acc : Resolution) : ResolveError + Resolution :=
  match node with
  | mkDependencyTree v deps isRoot =>
    if hoisted (mkDependencyTree v deps isRoot) then inr acc
    else
      match resolved acc !! package with
      | Some kept =>
        if String.eqb kept v then inr acc
        else if strict then inl (VersionConflictError package kept v)
        else inr (mkResolution (resolved acc)
                    (diagnostics acc ++ [(package, kept, v)]))
      | None =>
        let acc' := mkResolution (<[package := v]> (resolved acc))
                      (diagnostics acc) in
        match deps with
        | None => inr acc'
        | Some children =>
          (fix visitAll (l : list (string * DependencyTree))
               (acc : Resolution) : ResolveError + Resolution :=
             match l with
             | [] => inr acc
             | (child, sub) :: rest =>
               match visit strict child sub acc with
               | inl e => inl e
               | inr acc1 => visitAll rest acc1
               end
             end) children acc'
        end
      end
  end.

(** Modelled from the spec: the walk over the entries of a dependency
    map, in their order. *)
Definition visitAll (strict : bool)
  : list (string * DependencyTree) -> Resolution -> ResolveError + Resolution :=
  fix visitAll (l : list (string * DependencyTree)) (acc : Resolution) :=
    match l with
    | [] => inr acc
    | (child, sub) :: rest =>
      match visit strict child sub acc with
      | inl e => inl e
      | inr acc1 => visitAll rest acc1
      end
    end.

(** Modelled from the spec: the node of a package in a dependency map. *)
Fixpoint lookupPackage (package : string) (tree : DependencyMap)
  : option DependencyTree :=
  match tree with
  | [] => None
  | (p, node) :: rest =>
    if String.eqb p package then Some node else lookupPackage package rest
  end.

(** Modelled from the spec: the externals of a function that the tree
    knows, each with its node. *)
Definition externalNodes (externals : list string) (tree : DependencyMap)
  : list (string * DependencyTree) :=
  omap (fun package => pair package <$> lookupPackage package tree) externals.

(** Modelled from the spec: the contract of the dependency resolver. The
    tree is [None] when the package manager cannot report one. *)
Definition resolveDependencies (strict : bool) (externals : list string)
    (tree : option DependencyMap) : ResolveError + gmap string string :=
  match tree with
  | None => inl DependencyTreeUnavailableError
  | Some root =>
    match visitAll strict (externalNodes externals root)
            (mkResolution ∅ []) with
    | inl e => inl e
    | inr acc => inr (resolved acc)
    end
  end.



End DependencyResolver.

(** ** Sample dependency trees *)

Module SampleBuild.

(** [lodash] is hoisted, at the root and below [b]; [b] is not and needs
    [lodash] and [c]. *)
Definition dependencyTree : DependencyMap :=
  [("lodash", mkDependencyTree "4.17.21" None (Some true));
   ("b",
    mkDependencyTree "1.0.0"
      (Some [("lodash", mkDependencyTree "4.17.21" None (Some true));
             ("c", mkDependencyTree "2.0.0" None None)])
      None)].


End SampleBuild.

(* ===================================================================== *)
(** * Part II: properties *)
(* ===================================================================== *)

(** ** Strings *)

Module StringFacts.

Lemma append_cons (c : ascii) (s t : string) :
  String c s +:+ t = String c (s +:+ t).
Proof. reflexivity. Qed.

Lemma append_nil_l (t : string) : "" +:+ t = t.
Proof. reflexivity. Qed.

Ltac string_simpl := rewrite ?append_cons, ?append_nil_l; simpl.

Lemma length_append (s t : string) :
  String.length (s +:+ t) = (String.length s + String.length t)%nat.
Proof.
  induction s as [|c s IH]; string_simpl; [reflexivity | now rewrite <- IH].
Qed.

Lemma append_nil_r (s : string) : s +:+ "" = s.
Proof. induction s as [|c s IH]; string_simpl; [reflexivity | now f_equal]. Qed.

Lemma append_assoc (s t u : string) : (s +:+ t) +:+ u = s +:+ t +:+ u.
Proof. induction s as [|c s IH]; string_simpl; [reflexivity | now f_equal]. Qed.

Lemma substring_0_0 (s : string) : String.substring 0 0 s = "".
Proof. now destruct s. Qed.

Lemma substring_all (s : string) : String.substring 0 (String.length s) s = s.
Proof. induction s as [|c s IH]; simpl; [reflexivity | now f_equal]. Qed.

Lemma substring_prefix (s t : string) :
  String.substring 0 (String.length s) (s +:+ t) = s.
Proof.
  induction s as [|c s IH]; string_simpl; [apply substring_0_0 | now f_equal].
Qed.

(** A string is its first [n] characters followed by the rest. *)
Lemma substring_split (s : string) (n : nat) :
  (n <= String.length s)%nat ->
  s = String.substring 0 n s +:+ String.substring n (String.length s - n) s.
Proof.
  revert n. induction s as [|c s IH]; intros [|n] Hn; simpl in *;
    string_simpl; try reflexivity; try lia.
  - f_equal. symmetry. apply substring_all.
  - f_equal. apply IH. lia.
Qed.

Lemma get_lt (s : string) (i : nat) :
  (i < String.length s)%nat -> exists c, String.get i s = Some c.
Proof.
  revert i. induction s as [|c s IH]; intros i Hi; simpl in *; [lia|].
  destruct i as [|i]; [eauto | apply IH; lia].
Qed.

Lemma get_last_not_slash (s : string) (c : ascii) :
  JS.endsWithSlash s = false ->
  String.get (String.length s - 1) s = Some c ->
  NodePath.isSlash c = false.
Proof.
  induction s as [|a s IH]; simpl; [discriminate|].
  destruct s as [|b s].
  - simpl. intros H [= <-]. exact H.
  - intros H. simpl in *. rewrite Nat.sub_0_r in *. intros Hg. apply IH; assumption.
Qed.

End StringFacts.

(** ** [trimExtension] *)

Module TrimExtension.
Import NodePath StringFacts.

Lemma slice_suffix (s : string) (from : Z) :
  0 <= from <= JS.len s ->
  exists base, s = base +:+ JS.slice s from (JS.len s).
Proof.
  intros Hf. exists (String.substring 0 (Z.to_nat from) s).
  unfold JS.slice, JS.len in *.
  destruct (from <? 0) eqn:E1; [lia|].
  destruct (Z.of_nat (String.length s) <? 0) eqn:E2; [lia|].
  replace (Z.min from (Z.of_nat (String.length s))) with from by lia.
  replace (Z.min (Z.of_nat (String.length s)) (Z.of_nat (String.length s)))
    with (Z.of_nat (String.length s)) by lia.
  replace (Z.to_nat (Z.max (Z.of_nat (String.length s) - from) 0))
    with (String.length s - Z.to_nat from)%nat by lia.
  apply substring_split. lia.
Qed.

Lemma extname_scan_inv (path : string) :
  JS.endsWithSlash path = false ->
  forall n st,
    (n <= String.length path)%nat ->
    scanInv path n st ->
    scanInv path 0 (extname_scan path n st).
Proof.
  intros Hlast n. induction n as [|i IH]; intros st Hn Hinv; simpl.
  - destruct Hinv as [[[He Hz] | He] Hd]; split; auto.
  - destruct (get_lt path i) as [code Hc]; [lia|]. rewrite Hc.
    destruct Hinv as [Hend Hdot].
    destruct (isSlash code) eqn:Hslash.
    + assert (scanEnd st = JS.len path) as He.
      { destruct Hend as [[_ Hl] | He]; [|exact He].
        exfalso. replace i with (String.length path - 1)%nat in Hc by lia.
        rewrite (get_last_not_slash path code Hlast Hc) in Hslash. discriminate. }
      destruct (negb (matchedSlash st)); [split; simpl; auto|].
      apply IH; [lia|]. split; auto.
    + apply IH; [lia|].
      assert (Z.of_nat i < JS.len path) as Hi by (unfold JS.len; lia).
      destruct (scanEnd st =? -1) eqn:E; simpl.
      * assert (S i = String.length path) as Hl.
        { destruct Hend as [[_ Hl] | He]; [exact Hl|].
          apply Z.eqb_eq in E. unfold JS.len in He. lia. }
        assert (Z.of_nat i + 1 = JS.len path) as Hl' by (unfold JS.len; lia).
        destruct (isDot code); simpl.
        -- destruct (startDot st =? -1); simpl;
             [split; simpl; [right; exact Hl' | right; lia]|].
           destruct (negb (preDotState st =? 1)); split; simpl; auto.
        -- destruct (negb (startDot st =? -1)); split; simpl; auto.
      * assert (scanEnd st = JS.len path) as He.
        { destruct Hend as [[He _] | He]; [|exact He].
          apply Z.eqb_neq in E. contradiction. }
        destruct (isDot code); simpl.
        -- destruct (startDot st =? -1); simpl;
             [split; simpl; [right; exact He | right; lia]|].
           destruct (negb (preDotState st =? 1)); split; simpl; auto.
        -- destruct (negb (startDot st =? -1)); split; simpl; auto.
Qed.

(** Without trailing separators, the extension is a suffix of the path. *)
Lemma extname_suffix (path : string) :
  JS.endsWithSlash path = false ->
  exists base, path = base +:+ extname path.
Proof.
  intros Hlast. unfold extname.
  pose proof (extname_scan_inv path Hlast (String.length path) extScan0
                (le_n _)) as Hinv.
  destruct Hinv as [Hend Hdot].
  { split; simpl; auto. }
  set (st := extname_scan path (String.length path) extScan0) in *.
  destruct (startDot st =? -1) eqn:E1; simpl;
    [exists path; symmetry; apply append_nil_r|].
  destruct (scanEnd st =? -1) eqn:E2; simpl;
    [exists path; symmetry; apply append_nil_r|].
  match goal with |- context [if ?b then _ else _] => destruct b end;
    [exists path; symmetry; apply append_nil_r|].
  apply Z.eqb_neq in E1, E2.
  destruct Hend as [[He _] | He]; [contradiction|]. rewrite He.
  apply slice_suffix. lia.
Qed.

Lemma trim_no_extension (entry : string) :
  extname entry = "" -> trimExtension entry = "".
Proof.
  intros H. unfold trimExtension. rewrite H. unfold JS.slice.
  change (- JS.len "") with 0. change (0 <? 0) with false. cbv iota.
  replace (Z.min 0 (JS.len entry)) with 0 by (unfold JS.len; lia).
  apply substring_0_0.
Qed.

Lemma trim_suffix (base ext : string) :
  ext <> "" ->
  JS.slice (base +:+ ext) 0 (- JS.len ext) = base.
Proof.
  intros Hne. unfold JS.slice, JS.len. rewrite length_append.
  assert (0 < String.length ext)%nat as Hpos.
  { destruct ext; [contradiction | simpl; lia]. }
  destruct (- Z.of_nat (String.length ext) <? 0) eqn:E; [|lia].
  change (0 <? 0) with false. cbv iota.
  set (n := (String.length base + String.length ext)%nat).
  replace (Z.min 0 (Z.of_nat n)) with 0 by lia.
  replace (Z.to_nat (Z.max (Z.max (Z.of_nat n + - Z.of_nat (String.length ext)) 0 - 0) 0))
    with (String.length base) by lia.
  apply substring_prefix.
Qed.

End TrimExtension.

(** C9 (as stated, refuted). The extension of an entry with a trailing
    separator is not at its end: [a.b/] has the extension [.b], and
    [trimExtension] cuts the last two characters, which gives [a.] and not
    the entry without its extension [a/]. *)
Lemma trimExtension_trailing_separator :
  NodePath.extname "a.b/" = ".b"
  /\ trimExtension "a.b/" = "a."
  /\ ~ (forall entry,
          NodePath.extname entry <> "" ->
          exists before after,
            entry = before +:+ NodePath.extname entry +:+ after
            /\ trimExtension entry = before +:+ after).
Proof.
  split; [reflexivity|]. split; [reflexivity|].
  intros H. destruct (H "a.b/") as (before & after & Hsplit & Htrim);
    [discriminate|].
  change (NodePath.extname "a.b/") with ".b" in Hsplit.
  change (trimExtension "a.b/") with "a." in Htrim.
  destruct before as [|c1 [|c2 [|c3 [|c4 before]]]];
    rewrite ?StringFacts.append_cons, ?StringFacts.append_nil_l in Hsplit, Htrim;
    simplify_eq.
Qed.

(** C9 (amended). An entry without extension is trimmed to the empty
    string; an entry that has an extension and no trailing separator is
    trimmed to the entry without that extension. *)
Theorem trimExtension_spec (entry : string) :
  (NodePath.extname entry = "" -> trimExtension entry = "")
  /\ (NodePath.extname entry <> "" ->
      JS.endsWithSlash entry = false ->
      trimExtension entry +:+ NodePath.extname entry = entry
      /\ String.length (trimExtension entry)
         = (String.length entry - String.length (NodePath.extname entry))%nat).
Proof.
  split; [apply TrimExtension.trim_no_extension|].
  intros Hext Hlast.
  destruct (TrimExtension.extname_suffix entry Hlast) as [base Hbase].
  unfold trimExtension.
  remember (NodePath.extname entry) as ext eqn:Hx. clear Hx. subst entry.
  rewrite TrimExtension.trim_suffix by exact Hext.
  split; [reflexivity|].
  rewrite StringFacts.length_append. lia.
Qed.

Lemma trimExtension_spec_witness :
  trimExtension "src/hello1" = ""
  /\ trimExtension "src/hello1.ts" +:+ NodePath.extname "src/hello1.ts"
     = "src/hello1.ts".
Proof.
  split.
  - apply (proj1 (trimExtension_spec "src/hello1")). vm_compute. reflexivity.
  - apply (proj2 (trimExtension_spec "src/hello1.ts")).
    + vm_compute. discriminate.
    + vm_compute. reflexivity.
Defined.

(** ** Paths *)

Module PathFacts.
Import NodePath StringFacts.

Lemma segments_nonempty (s : string) : segments s <> [].
Proof.
  induction s as [|c s IH]; simpl; [discriminate|].
  destruct (isSlash c); [discriminate|].
  destruct (segments s); [contradiction | discriminate].
Qed.

Lemma weight_app (l1 l2 : list string) :
  weight (l1 ++ l2) = (weight l1 + weight l2)%nat.
Proof. induction l1 as [|x l1 IH]; simpl; [reflexivity | rewrite IH; lia]. Qed.

Lemma weight_rev (l : list string) : weight (rev l) = weight l.
Proof.
  induction l as [|x l IH]; simpl; [reflexivity|].
  rewrite weight_app, IH. simpl. lia.
Qed.

Lemma weightNonEmpty_le (l : list string) : (weightNonEmpty l <= weight l)%nat.
Proof.
  unfold weightNonEmpty. induction l as [|x l IH]; simpl; [lia|].
  destruct (negb (x =? "")%string); simpl; lia.
Qed.

Lemma weightNonEmpty_app (l1 l2 : list string) :
  weightNonEmpty (l1 ++ l2) = (weightNonEmpty l1 + weightNonEmpty l2)%nat.
Proof. unfold weightNonEmpty. now rewrite List.filter_app, weight_app. Qed.

(** The segments of a string weigh one more than the string is long. *)
Lemma weight_segments (s : string) : weight (segments s) = S (String.length s).
Proof.
  induction s as [|c s IH]; simpl; [reflexivity|].
  destruct (isSlash c); simpl; [rewrite IH; lia|].
  destruct (segments s) as [|seg segs] eqn:E; [now apply segments_nonempty in E|].
  simpl in *. lia.
Qed.

Lemma segments_separator (q r : string) :
  segments (q +:+ String "/" r) = segments q ++ segments r.
Proof.
  induction q as [|c q IH]; rewrite ?append_cons, ?append_nil_l;
    [reflexivity|].
  simpl.
  rewrite IH. destruct (isSlash c); [reflexivity|].
  destruct (segments q) as [|seg segs] eqn:E; [now apply segments_nonempty in E|].
  reflexivity.
Qed.

Lemma length_unsegments (segs : list string) :
  (S (String.length (unsegments segs)) <= Nat.max 1 (weight segs))%nat.
Proof.
  unfold unsegments. induction segs as [|x segs IH]; simpl; [lia|].
  destruct segs as [|y segs]; [simpl; lia|].
  rewrite !length_append. simpl in *. lia.
Qed.

(** Normalizing below the root only drops segments. *)
Lemma weight_normalizeSegments (segs acc : list string) :
  (weight (normalizeSegments false segs acc)
   <= weight acc + weightNonEmpty segs)%nat.
Proof.
  revert acc. induction segs as [|seg segs IH]; intros acc; simpl.
  - rewrite weight_rev. unfold weightNonEmpty. simpl. lia.
  - assert (weightNonEmpty (seg :: segs)
            = ((if (seg =? "")%string then 0 else String.length seg + 1)
               + weightNonEmpty segs)%nat) as ->.
    { unfold weightNonEmpty. simpl.
      destruct (seg =? "")%string; simpl; lia. }
    destruct (seg =? "")%string eqn:E1; simpl; [apply IH|].
    destruct (seg =? ".")%string eqn:E2; simpl.
    { etransitivity; [apply IH|]. lia. }
    destruct (seg =? "..")%string eqn:E3.
    + destruct acc as [|top acc'].
      * etransitivity; [apply IH|]. simpl. lia.
      * destruct (top =? "..")%string;
          (etransitivity; [apply IH|]); simpl; lia.
    + etransitivity; [apply IH|]. simpl. lia.
Qed.

Lemma startsWithSlash_inv (p : string) :
  JS.startsWithSlash p = true -> exists q, p = "/" +:+ q.
Proof.
  destruct p as [|c q]; simpl; [discriminate|].
  intros H. apply Ascii.eqb_eq in H. subst c. now exists q.
Qed.

Section Resolve.
Variable cwd : string.
Hypothesis cwd_absolute : JS.startsWithSlash cwd = true.

Lemma resolveArgs_absolute (p : string) :
  exists r, resolveArgs cwd [p] = (r, true).
Proof.
  assert (resolveArgs cwd [] = (cwd +:+ "/", true)) as Hcwd.
  { simpl. destruct cwd; [discriminate|]. simpl in *. now rewrite cwd_absolute. }
  simpl resolveArgs at 1. fold (resolveArgs cwd []).
  destruct (String.length p =? 0)%nat; [eauto|].
  destruct (JS.startsWithSlash p); [eauto|].
  rewrite Hcwd. eauto.
Qed.

(** A resolved path is absolute. *)
Lemma resolve_absolute (p : string) :
  JS.startsWithSlash (resolve cwd [p]) = true.
Proof.
  unfold resolve. change (rev [p]) with [p].
  destruct (resolveArgs_absolute p) as [r ->]. reflexivity.
Qed.

(** Resolving an absolute path does not make it longer. *)
Lemma resolve_length (p : string) :
  JS.startsWithSlash p = true ->
  (String.length (resolve cwd [p]) <= String.length p)%nat.
Proof.
  intros Hp. destruct (startsWithSlash_inv p Hp) as [q ->].
  unfold resolve. change (rev ["/" +:+ q]) with ["/" +:+ q].
  cbn [resolveArgs]. rewrite Hp.
  replace (String.length ("/" +:+ q) =? 0)%nat with false by reflexivity.
  unfold normalizeString. cbn [negb].
  repeat (rewrite append_cons || rewrite append_nil_l).
  change (segments (String "/" (q +:+ "/")))
    with ("" :: segments (q +:+ String "/" "")).
  rewrite segments_separator. cbn [normalizeSegments String.eqb orb].
  change (String.length (String "/" ?s)) with (S (String.length s)).
  set (norm := normalizeSegments false _ []).
  pose proof (length_unsegments norm) as H1.
  pose proof (weight_normalizeSegments (segments q ++ segments "") []) as H2.
  fold norm in H2. rewrite weightNonEmpty_app in H2.
  pose proof (weightNonEmpty_le (segments q)) as H3.
  rewrite weight_segments in H3.
  change (weightNonEmpty (segments "")) with 0%nat in H2. simpl in H2.
  simpl. lia.
Qed.

End Resolve.

Lemma length_substring_prefix (s : string) (n : nat) :
  (n <= String.length s)%nat -> String.length (String.substring 0 n s) = n.
Proof.
  revert n. induction s as [|c s IH]; intros [|n] Hn; simpl in *;
    try reflexivity; try lia.
  f_equal. apply IH. lia.
Qed.

Lemma startsWithSlash_substring (s : string) (n : nat) :
  (1 <= n)%nat ->
  JS.startsWithSlash (String.substring 0 n s) = JS.startsWithSlash s.
Proof. destruct s as [|c s]; destruct n; simpl; intros; try lia; reflexivity. Qed.

Lemma dirname_scan_step (path : string) (j : nat) (matched : bool) :
  dirname_scan path (S (S j)) matched
  = match String.get (S j) path with
    | None => -1
    | Some code =>
      if isSlash code then
        if negb matched then Z.of_nat (S j) else dirname_scan path (S j) matched
      else dirname_scan path (S j) false
    end.
Proof. reflexivity. Qed.

(** The scan of [dirname] stops at an index inside the path, and two
    characters before its end when it started behind separators. *)
Lemma dirname_scan_bound (path : string) (n : nat) (matched : bool) :
  let stop := dirname_scan path n matched in
  stop = -1
  \/ (1 <= stop /\ stop < Z.of_nat n /\ (matched = true -> stop + 1 < Z.of_nat n)).
Proof.
  cbv zeta. revert matched. induction n as [|i IH]; intros matched; [now left|].
  destruct i as [|j]; [now left|].
  rewrite dirname_scan_step.
  destruct (String.get (S j) path) as [code|]; [|now left].
  destruct (isSlash code).
  - destruct matched; cbn [negb].
    + destruct (IH true) as [H | (H1 & H2 & H3)]; [now left|].
      right. specialize (H3 eq_refl). lia.
    + right. split; [lia|]. split; [lia | discriminate].
  - destruct (IH false) as [H | (H1 & H2 & H3)]; [now left|].
    right. lia.
Qed.
(** The parent of an absolute path other than the root is absolute and
    shorter. *)
Lemma dirname_shorter (d : string) :
  JS.startsWithSlash d = true ->
  d <> "/" ->
  JS.startsWithSlash (dirname d) = true
  /\ (String.length (dirname d) < String.length d)%nat.
Proof.
  intros Habs Hroot.
  assert (2 <= String.length d)%nat as Hlen.
  { destruct d as [|c [|c' d]]; simpl in *; try discriminate; [|lia].
    apply Ascii.eqb_eq in Habs. subst c. contradiction. }
  unfold dirname. rewrite Habs.
  destruct (String.length d =? 0)%nat eqn:E0; [apply Nat.eqb_eq in E0; lia|].
  pose proof (dirname_scan_bound d (String.length d) true) as Hb.
  cbv zeta in Hb. set (stop := dirname_scan d (String.length d) true) in *.
  destruct (stop =? -1) eqn:E1; [split; [reflexivity | simpl; lia]|].
  apply Z.eqb_neq in E1. destruct Hb as [Hb | (H1 & H2 & H3)]; [contradiction|].
  specialize (H3 eq_refl).
  destruct (stop =? 1) eqn:E2; simpl; [split; [reflexivity | simpl; lia]|].
  unfold JS.slice, JS.len.
  change (0 <? 0) with false. destruct (stop <? 0) eqn:E3; [lia|]. cbv iota.
  replace (Z.min 0 (Z.of_nat (String.length d))) with 0 by lia.
  replace (Z.to_nat (Z.max (Z.min stop (Z.of_nat (String.length d)) - 0) 0))
    with (Z.to_nat stop) by lia.
  change (Z.to_nat 0) with 0%nat.
  rewrite startsWithSlash_substring by lia.
  rewrite length_substring_prefix by lia. split; [exact Habs | lia].
Qed.

End PathFacts.

(** ** The file system *)

Module FsFacts.
Import StringFacts.

Lemma prefix_iff (s1 s2 : string) :
  String.prefix s1 s2 = true <-> exists rest, s2 = s1 +:+ rest.
Proof.
  revert s2. induction s1 as [|c s1 IH]; intros s2.
  - split; [intros _; now exists s2 | intros _; now destruct s2].
  - destruct s2 as [|c2 s2]; simpl.
    + split; [discriminate | intros [rest H]; discriminate].
    + destruct (ascii_dec c c2) as [<- | Hne].
      * rewrite IH. split; intros [rest H]; exists rest.
        -- now rewrite append_cons, <- H.
        -- rewrite append_cons in H. now injection H.
      * split; [discriminate|]. intros [rest H].
        rewrite append_cons in H. injection H as H1 _. now subst.
Qed.

Lemma inside_iff (dir p : string) :
  inside dir p = true <-> p = dir \/ exists rest, p = dir +:+ "/" +:+ rest.
Proof.
  unfold inside. rewrite orb_true_iff, String.eqb_eq, prefix_iff.
  split; (intros [H | [rest H]]; [now left | right; exists rest]).
  - now rewrite H, append_assoc.
  - now rewrite H, append_assoc.
Qed.

Lemma inside_refl (dir : string) : inside dir dir = true.
Proof. apply inside_iff. now left. Qed.

Lemma inside_trans (a b c : string) :
  inside a b = true -> inside b c = true -> inside a c = true.
Proof.
  rewrite !inside_iff. intros [-> | [r1 ->]] [-> | [r2 ->]]; eauto.
  right. exists (r1 +:+ "/" +:+ r2). now rewrite !append_assoc.
Qed.

(** What lies outside a directory lies outside everything in it. *)
Lemma outside_trans (a b c : string) :
  inside a b = true -> inside a c = false -> inside b c = false.
Proof.
  intros Hab Hac. apply not_true_is_false. intros Hbc.
  rewrite (inside_trans a b c Hab Hbc) in Hac. discriminate.
Qed.

Lemma substring_none (s : string) (n : nat) : String.substring n 0 s = "".
Proof.
  revert n. induction s as [|c s IH]; intros [|n]; simpl; try reflexivity.
  apply IH.
Qed.

Lemma substring_suffix (s t : string) :
  String.substring (String.length s) (String.length t) (s +:+ t) = t.
Proof.
  induction s as [|c s IH]; string_simpl; [apply substring_all | exact IH].
Qed.

Lemma inside_rebase (src dst p : string) :
  inside src p = true -> inside dst (rebase src dst p) = true.
Proof.
  rewrite !inside_iff. unfold rebase. intros [-> | [rest ->]].
  - left. rewrite Nat.sub_diag, substring_none. apply append_nil_r.
  - right. exists rest. f_equal.
    rewrite length_append.
    replace (String.length src + String.length ("/" +:+ rest) - String.length src)%nat
      with (String.length ("/" +:+ rest)) by lia.
    apply substring_suffix.
Qed.

(** A copy of a tree changes nothing outside its destination. *)
Lemma copyTree_outside (now : Z) (src dst q : string) (fs : gmap string Node) :
  inside dst q = false -> copyTree now src dst fs !! q = fs !! q.
Proof.
  intros Hq. unfold copyTree.
  apply (map_fold_weak_ind
           (fun (r : gmap string Node) (_ : gmap string Node) => r !! q = fs !! q)).
  - reflexivity.
  - intros p n m r _ IH. destruct (inside src p) eqn:Hp; [|exact IH].
    rewrite lookup_insert_ne; [exact IH|].
    intros E. rewrite <- E, (inside_rebase src dst p Hp) in Hq. discriminate.
Qed.

(** Two paths inside [src] that are rebased to the same path are equal. *)
Lemma rebase_inj (src dst p q : string) :
  inside src p = true -> inside src q = true ->
  rebase src dst p = rebase src dst q -> p = q.
Proof.
  rewrite !inside_iff. unfold rebase.
  assert (forall rest,
             String.substring (String.length src)
               (String.length (src +:+ "/" +:+ rest) - String.length src)
               (src +:+ "/" +:+ rest) = "/" +:+ rest) as Hrest.
  { intros rest. rewrite length_append.
    replace (String.length src + String.length ("/" +:+ rest) - String.length src)%nat
      with (String.length ("/" +:+ rest)) by lia.
    apply substring_suffix. }
  assert (String.substring (String.length src)
            (String.length src - String.length src) src = "") as Hself
    by (rewrite Nat.sub_diag; apply substring_none).
  intros [-> | [r1 ->]] [-> | [r2 ->]]; rewrite ?Hrest, ?Hself; intros E;
    apply (inj (String.app dst)) in E; try discriminate; congruence.
Qed.

(** A copy of a tree holds, at the rebased path, every node that was at
    or below the source. *)
Lemma copyTree_inside (now : Z) (src dst p : string) (fs : gmap string Node) n :
  fs !! p = Some n ->
  inside src p = true ->
  copyTree now src dst fs !! rebase src dst p = Some (touch now n).
Proof.
  intros Hn Hp. unfold copyTree. revert Hn.
  apply (map_fold_weak_ind
           (fun (r : gmap string Node) (m : gmap string Node) =>
              m !! p = Some n -> r !! rebase src dst p = Some (touch now n))).
  - intros H. now rewrite lookup_empty in H.
  - intros q k m r Hq IH H. destruct (decide (q = p)) as [-> | Hne].
    + rewrite lookup_insert_eq in H. injection H as ->.
      rewrite Hp. apply lookup_insert_eq.
    + rewrite lookup_insert_ne in H by exact Hne.
      destruct (inside src q) eqn:Hin; [|now apply IH].
      rewrite lookup_insert_ne; [now apply IH|].
      intros E. apply Hne. exact (rebase_inj src dst q p Hin Hp E).
Qed.

(** A copy of a tree only adds to the tree. *)
Lemma copyTree_keeps now src dst (fs : gmap string Node) q :
  is_Some (fs !! q) -> is_Some (copyTree now src dst fs !! q).
Proof.
  intros Hq. unfold copyTree.
  apply (map_fold_weak_ind
           (fun (r : gmap string Node) (_ : gmap string Node) => is_Some (r !! q))).
  - exact Hq.
  - intros p n m r _ IH. destruct (inside src p); [|exact IH].
    apply lookup_insert_is_Some'. now right.
Qed.


Lemma removeTree_inside (dir p : string) (fs : gmap string Node) :
  inside dir p = true -> removeTree dir fs !! p = None.
Proof.
  intros Hp. unfold removeTree. apply map_lookup_filter_None. right.
  intros n _. simpl. rewrite Hp. discriminate.
Qed.

Lemma removeTree_outside (dir p : string) (fs : gmap string Node) :
  inside dir p = false -> removeTree dir fs !! p = fs !! p.
Proof.
  intros Hp. unfold removeTree.
  destruct (fs !! p) as [n|] eqn:E.
  - apply map_lookup_filter_Some. split; [exact E | exact Hp].
  - apply map_lookup_filter_None. now left.
Qed.

Lemma occupied_false (dir : string) (fs : gmap string Node) :
  occupied dir fs = false ->
  forall p, inside dir p = true -> fs !! p = None.
Proof.
  unfold occupied. intros H p Hp. apply negb_false_iff, bool_decide_eq_true in H.
  destruct (fs !! p) as [n|] eqn:E; [|reflexivity].
  specialize (H p n E). simpl in H. rewrite Hp in H. discriminate.
Qed.

End FsFacts.

(** ** Effects *)

Module EffFacts.

(** How a sequence of two effects can end. *)
Lemma andThen_inv {A B} (m : Eff A) (k : A -> Eff B) fs o fs' :
  andThen m k fs = (o, fs') ->
  (exists a fs1, m fs = (Done a, fs1) /\ k a fs1 = (o, fs'))
  \/ (exists e, m fs = (Fail e, fs') /\ o = Fail e)
  \/ (m fs = (Unsettled, fs') /\ o = Unsettled).
Proof.
  unfold andThen. destruct (m fs) as [[a | e |] fs1]; intros H.
  - left. eauto.
  - right. left. injection H as <- <-. eauto.
  - right. right. injection H as <- <-. eauto.
Qed.

Lemma andThen_Done {A B} (m : Eff A) (k : A -> Eff B) fs a fs1 :
  m fs = (Done a, fs1) -> andThen m k fs = k a fs1.
Proof. unfold andThen. now intros ->. Qed.

Lemma tryPromise_inv {A} (m : Eff A) fs o fs' :
  tryPromise m fs = (o, fs') ->
  (exists a, m fs = (Done a, fs') /\ o = Done a)
  \/ (exists e, m fs = (Fail e, fs') /\ o = Fail (UnknownException e))
  \/ (m fs = (Unsettled, fs') /\ o = Unsettled).
Proof.
  unfold tryPromise. destruct (m fs) as [[a | e |] fs1]; intros H;
    injection H as <- <-; eauto.
Qed.

End EffFacts.

(** ** The internal zip writer *)

Module NodeZipFacts.
Import Helper EffFacts FsFacts.

Lemma collectModes_lookup (files : IFiles) :
  forall (m0 : gmap string Z) fs m fs',
    collectModes files m0 fs = (Done m, fs') ->
    fs' = fs
    /\ (forall file, In file files -> is_Some (fs !! rootPath file))
    /\ (forall p, m !! p =
                  if bool_decide (p ∈ map rootPath files)
                  then match recordedMode fs p with
                       | Some mode => Some mode
                       | None => m0 !! p
                       end
                  else m0 !! p).
Proof.
  induction files as [|file rest IH]; intros m0 fs m fs' H.
  - injection H as <- <-. split; [reflexivity|]. split; [intros ? []|].
    intros p. reflexivity.
  - simpl in H. unfold andThen, NodeFs.stat in H.
    destruct (fs !! rootPath file) as [n|] eqn:En; [|discriminate].
    apply IH in H as (-> & Hall & Hm). split; [reflexivity|]. split.
    { intros f [<- | Hin]; [rewrite En; eauto | now apply Hall]. }
    intros p. rewrite Hm. clear Hm.
    destruct (decide (p = rootPath file)) as [-> | Hne].
    + rewrite (bool_decide_eq_true_2 (rootPath file ∈ map rootPath (file :: rest)))
        by (simpl; left).
      unfold recordedMode. rewrite En.
      destruct n as [bytes mode t | mode t]; simpl.
      * rewrite lookup_insert_eq. now destruct (bool_decide _).
      * now destruct (bool_decide _).
    + assert ((if negb (isDirectory (statsOf n))
               then <[rootPath file := statMode (statsOf n)]> m0
               else m0) !! p = m0 !! p) as ->.
      { destruct (negb _); [now rewrite lookup_insert_ne|reflexivity]. }
      destruct (bool_decide (p ∈ map rootPath rest)) eqn:E.
      * apply bool_decide_eq_true in E.
        rewrite (bool_decide_eq_true_2 (p ∈ map rootPath (file :: rest)));
          [reflexivity|]. simpl. now right.
      * apply bool_decide_eq_false in E.
        rewrite (bool_decide_eq_false_2 (p ∈ map rootPath (file :: rest)));
          [reflexivity|]. simpl. intros Hin. apply elem_of_cons in Hin.
        destruct Hin; [congruence | contradiction].
Qed.

(** The modes recorded for the files of the list. *)
Lemma collectModes_recorded (files : IFiles) fs m fs' :
  collectModes files ∅ fs = (Done m, fs') ->
  forall file, In file files -> m !! rootPath file = recordedMode fs (rootPath file).
Proof.
  intros H file Hin. apply collectModes_lookup in H as (_ & _ & Hm).
  rewrite Hm, bool_decide_eq_true_2.
  - destruct (recordedMode fs (rootPath file)); [reflexivity | apply lookup_empty].
  - apply list_elem_of_In, in_map, Hin.
Qed.


Lemma collectModes_settles (files : IFiles) :
  forall (m0 : gmap string Z) fs fs',
    collectModes files m0 fs <> (Unsettled, fs').
Proof.
  induction files as [|file rest IH]; intros m0 fs fs'; simpl; [discriminate|].
  unfold andThen, NodeFs.stat.
  destruct (fs !! rootPath file); [apply IH | discriminate].
Qed.

Lemma collectModes_state (files : IFiles) :
  forall (m0 : gmap string Z) fs o fs',
    collectModes files m0 fs = (o, fs') -> fs' = fs.
Proof.
  induction files as [|file rest IH]; intros m0 fs o fs'; simpl.
  - now intros [= _ <-].
  - unfold andThen, NodeFs.stat.
    destruct (fs !! rootPath file); [apply IH | now intros [= _ <-]].
Qed.

(** With the recorded modes, the [open] handler appends [entriesOf]. *)
Lemma appendEntries_spec (m : gmap string Z) fs (files : IFiles) :
  (forall file, In file files ->
                m !! rootPath file = recordedMode fs (rootPath file)) ->
  appendEntries m files fs = (Done (entriesOf fs files), fs).
Proof.
  induction files as [|file rest IH]; intros Hm; [reflexivity|].
  simpl. rewrite (Hm file (or_introl eq_refl)).
  specialize (IH (fun f Hin => Hm f (or_intror Hin))).
  unfold recordedMode, entriesOf. simpl.
  destruct (fs !! rootPath file) as [[bytes mode t | mode t]|] eqn:En; simpl.
  - unfold andThen, NodeFs.readFileSync. rewrite En, IH. reflexivity.
  - exact IH.
  - exact IH.
Qed.

Lemma createWriteStream_inv now zipPath fs o fs' :
  NodeFs.createWriteStream now zipPath fs = (o, fs') ->
  (o = Done NodeFs.OpenEvent /\ fs' = opened now zipPath fs
   /\ NodeFs.opens fs zipPath = true)
  \/ (o = Done (NodeFs.ErrorEvent (SystemError "open" zipPath)) /\ fs' = fs
      /\ NodeFs.opens fs zipPath = false).
Proof.
  unfold NodeFs.createWriteStream, opened.
  destruct (NodeFs.opens fs zipPath); [|intros [= <- <-]; now right].
  destruct (fs !! zipPath) as [[bytes m t | m t]|]; intros [= <- <-]; now left.
Qed.


(** The [pMap] rejects with the [stat] error of a file that is missing. *)
Lemma collectModes_failure (files : IFiles) :
  forall (m0 : gmap string Z) fs e fs',
    collectModes files m0 fs = (Fail e, fs') ->
    exists file,
      In file files /\ fs !! rootPath file = None
      /\ e = SystemError "stat" (rootPath file).
Proof.
  induction files as [|file rest IH]; intros m0 fs e fs'; simpl; [discriminate|].
  unfold andThen, NodeFs.stat.
  destruct (fs !! rootPath file) eqn:E.
  - intros H. apply IH in H as (g & Hin & Hg & ->). exists g. auto.
  - intros [= <- _]. exists file. auto.
Qed.

(** How [appended] can end. *)
Lemma appended_inv now zipPath (files : IFiles) fs o fs' :
  appended now zipPath files fs = (o, fs') ->
  (o = Done (entriesOf fs' files) /\ fs' = opened now zipPath fs
   /\ exists m, collectModes files ∅ fs' = (Done m, fs'))
  \/ (exists e, o = Fail e
                /\ fs' = (if NodeFs.opens fs zipPath
                          then opened now zipPath fs else fs)
                /\ collectModes files ∅ fs' = (Fail e, fs'))
  \/ (o = Unsettled /\ fs' = fs /\ NodeFs.opens fs zipPath = false
      /\ exists m, collectModes files ∅ fs = (Done m, fs)).
Proof.
  unfold appended. intros H.
  apply andThen_inv in H
    as [(output & fs1 & Hopen & H) | [(e & Hopen & _) | (Hopen & _)]].
  - apply createWriteStream_inv in Hopen
      as [([= ->] & -> & Hcan) | ([= ->] & -> & Hcan)]; rewrite ?Hcan.
    + apply andThen_inv in H as [(m & fs2 & Hm & H) | [(e & Hm & ->) | (Hm & _)]].
      * pose proof (collectModes_state _ _ _ _ _ Hm) as ->.
        unfold unhandled in H.
        rewrite (appendEntries_spec m _ files (collectModes_recorded _ _ _ _ Hm)) in H.
        injection H as <- <-. left. eauto.
      * pose proof (collectModes_state _ _ _ _ _ Hm) as ->. right. left. eauto.
      * now apply collectModes_settles in Hm.
    + apply andThen_inv in H as [(m & fs2 & Hm & H) | [(e & Hm & ->) | (Hm & _)]].
      * pose proof (collectModes_state _ _ _ _ _ Hm) as ->.
        injection H as <- <-. right. right. eauto.
      * pose proof (collectModes_state _ _ _ _ _ Hm) as ->. right. left. eauto.
      * now apply collectModes_settles in Hm.
  - apply createWriteStream_inv in Hopen as [(? & _) | (? & _)]; discriminate.
  - apply createWriteStream_inv in Hopen as [(? & _) | (? & _)]; discriminate.
Qed.



(** The entries depend on the bytes and the modes at the root paths only. *)
Lemma entriesOf_timeless (files : IFiles) (fs1 fs2 : gmap string Node) :
  (forall file, In file files ->
                timeless <$> fs1 !! rootPath file = timeless <$> fs2 !! rootPath file) ->
  entriesOf fs1 files = entriesOf fs2 files.
Proof.
  induction files as [|file rest IH]; intros H; [reflexivity|].
  unfold entriesOf in *. simpl. f_equal.
  - specialize (H file (or_introl eq_refl)).
    destruct (fs1 !! rootPath file) as [[b1 m1 t1 | m1 t1]|],
             (fs2 !! rootPath file) as [[b2 m2 t2 | m2 t2]|];
      simpl in H; try discriminate; try reflexivity.
    now injection H as -> ->.
  - apply IH. intros f Hin. apply H. now right.
Qed.

Lemma entriesOf_dates (fs : gmap string Node) (files : IFiles) :
  Forall (fun entry => date entry = 0) (entriesOf fs files).
Proof.
  unfold entriesOf. induction files as [|file rest IH]; simpl; [constructor|].
  destruct (fs !! rootPath file) as [[bytes m t | m t]|]; simpl; auto.
Qed.

Lemma entriesOf_names (fs : gmap string Node) (files : IFiles) :
  map name (entriesOf fs files) = map localPath (List.filter (isRegular fs) files).
Proof.
  unfold entriesOf, isRegular. induction files as [|file rest IH]; simpl; [reflexivity|].
  destruct (fs !! rootPath file) as [[bytes m t | m t]|]; simpl; now rewrite ?IH.
Qed.

Lemma entriesOf_In (fs : gmap string Node) (files : IFiles) file bytes m t :
  In file files ->
  fs !! rootPath file = Some (File bytes m t) ->
  In (mkZipEntry (localPath file) bytes (Some m) 0) (entriesOf fs files).
Proof.
  intros Hin Hf. unfold entriesOf. apply in_flat_map. exists file.
  split; [exact Hin|]. rewrite Hf. now left.
Qed.

End NodeZipFacts.

(** ** [zip] *)

Module ZipFacts.
Import Helper EffFacts FsFacts NodeZipFacts.

Lemma copy_inv now src dst fs o fs' :
  EffectFs.copy now src dst fs = (o, fs') ->
  (o = Done tt /\ forall q, inside dst q = false -> fs' !! q = fs !! q)
  \/ (o = Fail (SystemError "copy" src) /\ fs' = fs /\ fs !! src = None).
Proof.
  unfold EffectFs.copy.
  destruct (fs !! src) as [[bytes m t | m t]|] eqn:E; intros [= <- <-].
  - left. split; [reflexivity|]. intros q Hq. apply lookup_insert_ne.
    intros ->. rewrite inside_refl in Hq. discriminate.
  - left. split; [reflexivity|]. intros q Hq. now apply copyTree_outside.
  - right. auto.
Qed.

Lemma copy_file now src dst fs bytes m t :
  fs !! src = Some (File bytes m t) ->
  EffectFs.copy now src dst fs = (Done tt, <[dst := File bytes m now]> fs).
Proof. unfold EffectFs.copy. now intros ->. Qed.

Lemma forEach_app {A} (f : A -> Eff unit) (l1 l2 : list A) fs :
  forEach f (l1 ++ l2) fs = (forEach f l1 ;;; forEach f l2) fs.
Proof.
  revert fs. induction l1 as [|a l1 IH]; intros fs; simpl.
  - unfold andThen, succeed. reflexivity.
  - unfold andThen in *. destruct (f a fs) as [[[]| e |] fs1]; try reflexivity.
    apply IH.
Qed.

(** Staging settles, and changes nothing outside the staged paths. *)
Lemma staging_inv now temp (files : IFiles) :
  forall fs o fs',
    staging now temp files fs = (o, fs') ->
    o <> Unsettled
    /\ forall q,
        (forall file, In file files -> inside (stagedPath temp file) q = false) ->
        fs' !! q = fs !! q.
Proof.
  unfold staging.
  induction files as [|file rest IH]; intros fs o fs' H; simpl in H.
  - injection H as <- <-. split; [discriminate | reflexivity].
  - apply andThen_inv in H as [([] & fs1 & Hc & H) | [(e & Hc & ->) | (Hc & ->)]].
    + apply IH in H as [Hs Hout]. split; [exact Hs|]. intros q Hq.
      rewrite Hout by (intros f Hin; apply Hq; now right).
      apply copy_inv in Hc as [[_ Hc] | [? _]]; [|discriminate].
      apply Hc, (Hq file). now left.
    + split; [discriminate|]. intros q Hq.
      apply copy_inv in Hc as [[? _] | (_ & -> & _)]; [discriminate | reflexivity].
    + apply copy_inv in Hc as [[? _] | [? _]]; discriminate.
Qed.

Lemma makePath_inv now path fs o fs' :
  EffectFs.makePath now path fs = (o, fs') ->
  (o = Done tt
   /\ fs' !! path = Some (match fs !! path with
                          | Some n => n
                          | None => Directory defaultDirMode now
                          end)
   /\ (forall m, fs !! path = Some m -> exists dm t, m = Directory dm t)
   /\ forall q, q <> path -> fs' !! q = fs !! q)
  \/ (o = Fail (SystemError "mkdir" path) /\ fs' = fs).
Proof.
  unfold EffectFs.makePath.
  destruct (fs !! path) as [[bytes m t | m t]|] eqn:E; intros [= <- <-].
  - right. auto.
  - left. split; [reflexivity|]. split; [first [exact E | reflexivity]|].
    split; [intros ? [= <-]; eauto | reflexivity].
  - left. split; [reflexivity|]. split; [apply lookup_insert_eq|].
    split; [discriminate|]. intros q Hq. now apply lookup_insert_ne.
Qed.

Lemma copy_done now src dst fs fs' :
  EffectFs.copy now src dst fs = (Done tt, fs') -> is_Some (fs !! src).
Proof.
  unfold EffectFs.copy. destruct (fs !! src); [eauto | discriminate].
Qed.

(** Staging fails with the error of a copy. *)
Lemma staging_failure now temp (files : IFiles) :
  forall fs e fs',
    staging now temp files fs = (Fail e, fs') ->
    exists path, e = SystemError "copy" path.
Proof.
  unfold staging. induction files as [|file rest IH]; intros fs e fs' H;
    simpl in H; [discriminate|].
  apply andThen_inv in H as [([] & fs1 & _ & H) | [(e' & Hc & [= <-]) | (_ & ?)]];
    [now apply IH in H | | discriminate].
  apply copy_inv in Hc as [[? _] | ([= ->] & _)]; [discriminate | eauto].
Qed.

(** Two trees that hold the same node at a path, up to its timestamp,
    still do so once the stream on [zipPath] is open. *)
Lemma opened_agree now1 now2 zipPath (fs1 fs2 : gmap string Node) r :
  timeless <$> fs1 !! r = timeless <$> fs2 !! r ->
  timeless <$> opened now1 zipPath fs1 !! r
  = timeless <$> opened now2 zipPath fs2 !! r.
Proof.
  intros H. unfold opened. destruct (decide (r = zipPath)) as [-> | Hne].
  - destruct (fs1 !! zipPath) as [[b1 m1 t1 | m1 t1]|],
             (fs2 !! zipPath) as [[b2 m2 t2 | m2 t2]|];
      simpl in H; try discriminate; rewrite !lookup_insert_eq; simpl;
      try reflexivity.
    now injection H as _ ->.
  - destruct (fs1 !! zipPath) as [[b1 m1 t1 | m1 t1]|],
             (fs2 !! zipPath) as [[b2 m2 t2 | m2 t2]|];
      rewrite !lookup_insert_ne by congruence; exact H.
Qed.

Lemma makePath_agree now1 now2 path (fs1 fs2 fs1' fs2' : gmap string Node) r :
  timeless <$> fs1 !! r = timeless <$> fs2 !! r ->
  EffectFs.makePath now1 path fs1 = (Done tt, fs1') ->
  EffectFs.makePath now2 path fs2 = (Done tt, fs2') ->
  timeless <$> fs1' !! r = timeless <$> fs2' !! r.
Proof.
  intros H H1 H2.
  apply makePath_inv in H1 as [(_ & Hp1 & _ & Hq1) | [? _]]; [|discriminate].
  apply makePath_inv in H2 as [(_ & Hp2 & _ & Hq2) | [? _]]; [|discriminate].
  destruct (decide (r = path)) as [-> | Hne].
  - rewrite Hp1, Hp2.
    destruct (fs1 !! path) as [n1|], (fs2 !! path) as [n2|];
      simpl in *; try discriminate; [exact H | reflexivity].
  - now rewrite Hq1, Hq2.
Qed.

(** Copies only add to the tree. *)
Lemma staging_keeps now temp (files : IFiles) :
  forall fs o fs' q,
    staging now temp files fs = (o, fs') ->
    is_Some (fs !! q) -> is_Some (fs' !! q).
Proof.
  unfold staging. induction files as [|file rest IH]; intros fs o fs' q H Hq;
    simpl in H.
  - now injection H as _ <-.
  - assert (forall o1 fs1,
               copyFileEffect now temp file fs = (o1, fs1) -> is_Some (fs1 !! q))
      as Hcopy.
    { intros o1 fs1. unfold copyFileEffect, EffectFs.copy.
      destruct (fs !! rootPath file) as [[b m t | m t]|]; intros [= _ <-].
      - apply lookup_insert_is_Some'. now right.
      - now apply copyTree_keeps.
      - exact Hq. }
    apply andThen_inv in H as [([] & fs1 & Hc & H) | [(e & Hc & _) | (Hc & _)]].
    + exact (IH fs1 o fs' q H (Hcopy _ _ Hc)).
    + exact (Hcopy _ _ Hc).
    + exact (Hcopy _ _ Hc).
Qed.

(** A staging that succeeded, one file at a time: the files before, the
    copy of the file, the files after. *)
Lemma staging_split now temp (before after : IFiles) file fs staged :
  staging now temp (before ++ file :: after) fs = (Done tt, staged) ->
  exists mid next,
    staging now temp before fs = (Done tt, mid)
    /\ EffectFs.copy now (rootPath file) (stagedPath temp file) mid = (Done tt, next)
    /\ staging now temp after next = (Done tt, staged).
Proof.
  unfold staging. intros H. rewrite forEach_app in H.
  apply andThen_inv in H as [([] & mid & H1 & H) | [(e & _ & ?) | (_ & ?)]];
    try discriminate.
  simpl in H.
  apply andThen_inv in H as [([] & next & H2 & H3) | [(e & _ & ?) | (_ & ?)]];
    try discriminate.
  exists mid, next. auto.
Qed.

Section Runs.
Variable tmpdir : string.
Variable bestzip : string -> string -> Eff unit.
Variable archiver : list ZipEntry -> ArchiveStream.

(** Every call of [zip] is one of the runs. *)
Lemma zip_run now zipPath (files : IFiles) useNativeZip fs o fs' :
  zip tmpdir bestzip archiver now zipPath files useNativeZip fs = (o, fs') ->
  ZipRun tmpdir bestzip archiver now zipPath files useNativeZip fs o fs'.
Proof.
  unfold zip, EffectFs.makeTempPathScoped, scoped, EffectFs.makeTempPath.
  fold (stagingDir tmpdir now zipPath).
  destruct (occupied (stagingDir tmpdir now zipPath) fs) eqn:Hocc.
  { intros [= <- <-]. now apply run_occupied. }
  fold (acquired tmpdir now zipPath fs).
  fold (staging now (stagingDir tmpdir now zipPath) files).
  fold (archiving bestzip archiver now zipPath files useNativeZip
          (stagingDir tmpdir now zipPath)).
  destruct (andThen _ _ _) as [o3 fs3] eqn:Hbody.
  apply andThen_inv in Hbody
    as [([] & staged & Hst & Hbody) | [(e & Hst & ->) | (Hst & ->)]].
  - apply andThen_inv in Hbody
      as [([] & prepared & Hmk & Hbody) | [(e & Hmk & ->) | (Hmk & ->)]].
    + destruct o3 as [[]| e |]; intros [= <- <-].
      * eapply run_archived; eauto; discriminate.
      * eapply run_archived; eauto; discriminate.
      * eapply run_unsettled; eauto.
    + intros [= <- <-].
      pose proof Hmk as Hmk'.
      apply makePath_inv in Hmk' as [[? _] | [_ ->]]; [discriminate|].
      eapply run_makePath_failed; eauto.
    + apply makePath_inv in Hmk as [[? _] | [? _]]; discriminate.
  - intros [= <- <-]. now apply run_copy_failed.
  - apply staging_inv in Hst as [Hst _]. now destruct Hst.
Qed.

(** How [nodeZip] can end. *)
Lemma nodeZip_inv now zipPath (files : IFiles) fs o fs' :
  nodeZip archiver now zipPath files fs = (o, fs') ->
  (exists bytes m,
      o = Done tt
      /\ archiver (entriesOf (opened now zipPath fs) files) = Finalized bytes
      /\ fs' = <[zipPath := File bytes m now]> (opened now zipPath fs))
  \/ (exists partial message m,
         o = Fail (ArchiverError message)
         /\ archiver (entriesOf (opened now zipPath fs) files)
            = Errored partial message
         /\ fs' = <[zipPath := File partial m now]> (opened now zipPath fs))
  \/ (exists file,
         In file files
         /\ fs' !! rootPath file = None
         /\ o = Fail (SystemError "stat" (rootPath file))
         /\ fs' = (if NodeFs.opens fs zipPath then opened now zipPath fs else fs))
  \/ (o = Unsettled /\ fs' = fs /\ NodeFs.opens fs zipPath = false
      /\ forall file, In file files -> is_Some (fs !! rootPath file)).
Proof.
  unfold nodeZip. intros H.
  assert (forall bytes o1 fs1,
             NodeFs.written now zipPath bytes (opened now zipPath fs) = (o1, fs1) ->
             exists m, o1 = Done tt
                       /\ fs1 = <[zipPath := File bytes m now]> (opened now zipPath fs))
    as Hwritten.
  { intros bytes o1 fs1. unfold NodeFs.written.
    destruct (opened now zipPath fs !! zipPath) as [[b m t | m t]|];
      intros [= <- <-]; eauto. }
  apply andThen_inv in H as [(entries & fs1 & Ha & H) | [(e & Ha & ->) | (Ha & ->)]].
  - apply appended_inv in Ha as [([= ->] & -> & _) | [(e & ? & _) | (? & _)]];
      try discriminate.
    destruct (archiver _) as [bytes | partial message] eqn:Earch.
    + apply Hwritten in H as (m & -> & ->). left. eauto.
    + apply andThen_inv in H as [([] & fs2 & Hw & H) | [(e & Hw & _) | (Hw & _)]].
      * apply Hwritten in Hw as (m & _ & ->). injection H as <- <-.
        right. left. eauto 10.
      * apply Hwritten in Hw as (m & ? & _). discriminate.
      * apply Hwritten in Hw as (m & ? & _). discriminate.
  - apply appended_inv in Ha as [(? & _) | [(e' & [= <-] & Hfs & Hm) | (? & _)]];
      try discriminate.
    right. right. left.
    apply collectModes_failure in Hm as (file & Hin & Hnone & ->). eauto.
  - apply appended_inv in Ha
      as [(? & _) | [(e' & ? & _) | (_ & -> & Hcan & m & Hm)]];
      try discriminate.
    right. right. right. split; [reflexivity|]. split; [reflexivity|].
    split; [exact Hcan|]. now apply collectModes_lookup in Hm as (_ & Hall & _).
Qed.


(** The internal writer gives the same bytes on two trees that hold the
    same nodes, up to timestamps, at the root paths. *)
Lemma nodeZip_deterministic now1 now2 zipPath (files : IFiles)
    (fs1 fs2 fs1' fs2' : gmap string Node) :
  (forall file, In file files ->
     timeless <$> fs1 !! rootPath file = timeless <$> fs2 !! rootPath file) ->
  nodeZip archiver now1 zipPath files fs1 = (Done tt, fs1') ->
  nodeZip archiver now2 zipPath files fs2 = (Done tt, fs2') ->
  exists entries bytes m1 m2,
    entries = entriesOf (opened now1 zipPath fs1) files
    /\ entries = entriesOf (opened now2 zipPath fs2) files
    /\ archiver entries = Finalized bytes
    /\ fs1' = <[zipPath := File bytes m1 now1]> (opened now1 zipPath fs1)
    /\ fs2' = <[zipPath := File bytes m2 now2]> (opened now2 zipPath fs2).
Proof.
  intros Hagree H1 H2.
  apply nodeZip_inv in H1
    as [(b1 & m1 & _ & Ha1 & ->) | [(? & ? & ? & ? & _) | [(? & _ & _ & ? & _) | (? & _)]]];
    try discriminate.
  apply nodeZip_inv in H2
    as [(b2 & m2 & _ & Ha2 & ->) | [(? & ? & ? & ? & _) | [(? & _ & _ & ? & _) | (? & _)]]];
    try discriminate.
  assert (entriesOf (opened now1 zipPath fs1) files
          = entriesOf (opened now2 zipPath fs2) files) as E.
  { apply entriesOf_timeless. intros file Hin. apply opened_agree, Hagree, Hin. }
  rewrite <- E in Ha2. rewrite Ha1 in Ha2. injection Ha2 as <-.
  exists (entriesOf (opened now1 zipPath fs1) files), b1, m1, m2. auto.
Qed.

(** In a well separated call, the root paths are as they were when the
    files have been staged. *)
Lemma staged_sources now zipPath (files : IFiles) fs o staged file :
  wellSeparated tmpdir now zipPath files ->
  staging now (stagingDir tmpdir now zipPath) files (acquired tmpdir now zipPath fs)
  = (o, staged) ->
  In file files ->
  staged !! rootPath file = fs !! rootPath file.
Proof.
  intros [_ Hsep] Hst Hin.
  apply staging_inv in Hst as [_ Hout]. rewrite Hout.
  - unfold acquired. apply lookup_insert_ne. intros E.
    destruct (Hsep file Hin) as [Hsrc _].
    rewrite <- E, inside_refl in Hsrc. discriminate.
  - intros g Hg. destruct (Hsep g Hg) as [_ Hdst].
    destruct (Hsep file Hin) as [Hsrc _].
    exact (outside_trans _ _ _ Hdst Hsrc).
Qed.

(** What staging leaves outside the staging directory is what was there. *)
Lemma staged_frame now zipPath (files : IFiles) fs o staged q :
  (forall file, In file files ->
     inside (stagingDir tmpdir now zipPath)
       (stagedPath (stagingDir tmpdir now zipPath) file) = true) ->
  staging now (stagingDir tmpdir now zipPath) files (acquired tmpdir now zipPath fs)
  = (o, staged) ->
  inside (stagingDir tmpdir now zipPath) q = false ->
  staged !! q = fs !! q.
Proof.
  intros Hin Hst Hq. apply staging_inv in Hst as [_ Hframe]. rewrite Hframe.
  - unfold acquired. apply lookup_insert_ne. intros E.
    rewrite <- E, inside_refl in Hq. discriminate.
  - intros file Hfile. exact (outside_trans _ _ _ (Hin file Hfile) Hq).
Qed.

(** A tree that agrees with the original one outside the staging directory
    is, once the scope is closed, the original one. *)
Lemma closed_scope now zipPath (fs fs3 : gmap string Node) :
  occupied (stagingDir tmpdir now zipPath) fs = false ->
  (forall q, inside (stagingDir tmpdir now zipPath) q = false ->
             fs3 !! q = fs !! q) ->
  removeTree (stagingDir tmpdir now zipPath) fs3 = fs.
Proof.
  intros Hocc Hframe. apply map_eq. intros q.
  destruct (inside (stagingDir tmpdir now zipPath) q) eqn:Hq.
  - rewrite removeTree_inside by exact Hq.
    symmetry. exact (occupied_false _ _ Hocc q Hq).
  - rewrite removeTree_outside by exact Hq. now apply Hframe.
Qed.

End Runs.

End ZipFacts.

(** ** The upward search *)

Module FindUpFacts.
Import NodePath PathFacts Helper.

Section Search.
Variable cwd : string.
Hypothesis cwd_absolute : JS.startsWithSlash cwd = true.
Variable fs : gmap string Node.

Lemma isPathRoot_root : isPathRoot cwd "/" = true.
Proof. reflexivity. Qed.

(** Each step of the search goes to a strictly shorter directory. *)
Lemma step_decreases (directory : string) :
  isPathRoot cwd (resolve cwd [directory]) = false ->
  (String.length (resolve cwd [dirname (resolve cwd [directory])])
   < String.length (resolve cwd [directory]))%nat.
Proof.
  intros Hroot. set (dir := resolve cwd [directory]) in *.
  assert (dir <> "/") as Hne.
  { intros E. rewrite E, isPathRoot_root in Hroot. discriminate. }
  destruct (dirname_shorter dir (resolve_absolute cwd cwd_absolute directory) Hne)
    as [Habs Hlt].
  pose proof (resolve_length cwd (dirname dir) Habs). lia.
Qed.

Lemma findUpEffect_total (names : list string) (n : nat) :
  forall directory,
    (String.length (resolve cwd [directory]) <= n)%nat ->
    exists r, forall fuel,
      (String.length (resolve cwd [directory]) < fuel)%nat ->
      findUpEffect cwd fuel names directory fs = Some r.
Proof.
  induction n as [|n IH]; intros directory Hn.
  - pose proof (resolve_absolute cwd cwd_absolute directory) as Habs.
    destruct (resolve cwd [directory]); simpl in *; [discriminate | lia].
  - destruct (existsb (fun b => b)
                (map (fun name => EffectFs.safeFileExists fs
                                    (join [resolve cwd [directory]; name])) names))
      eqn:Hfound.
    { exists (Done (resolve cwd [directory])). intros [|fuel] Hf; [lia|].
      simpl. now rewrite Hfound. }
    destruct (isPathRoot cwd (resolve cwd [directory])) eqn:Hroot.
    { exists (Fail NoSuchElementException). intros [|fuel] Hf; [lia|].
      simpl. now rewrite Hfound, Hroot. }
    pose proof (step_decreases directory Hroot) as Hlt.
    destruct (IH (dirname (resolve cwd [directory]))) as [r Hr]; [lia|].
    exists r. intros [|fuel] Hf; [lia|].
    simpl. rewrite Hfound, Hroot. apply Hr. lia.
Qed.

Lemma searchedFrom_parent (directory d : string) :
  isPathRoot cwd (resolve cwd [directory]) = false ->
  searchedFrom cwd (dirname (resolve cwd [directory])) d ->
  searchedFrom cwd directory d.
Proof.
  intros Hroot H. induction H as [|dir H IH Hdir].
  - apply searched_parent; [apply searched_start | exact Hroot].
  - apply searched_parent; assumption.
Qed.

Lemma findUpEffect_none (names : list string) (fuel : nat) :
  forall directory,
    (forall dir name,
        searchedFrom cwd directory dir -> In name names ->
        EffectFs.safeFileExists fs (join [dir; name]) = false) ->
    (String.length (resolve cwd [directory]) < fuel)%nat ->
    findUpEffect cwd fuel names directory fs = Some (Fail NoSuchElementException).
Proof.
  induction fuel as [|fuel IH]; intros directory Hnone Hf; [lia|].
  simpl.
  assert (existsb (fun b => b)
            (map (fun name => EffectFs.safeFileExists fs
                                (join [resolve cwd [directory]; name])) names)
          = false) as ->.
  { apply not_true_is_false. intros Hex.
    apply existsb_exists in Hex as (b & Hin & Hb). subst b.
    apply in_map_iff in Hin as (name & Hname & Hin).
    rewrite (Hnone _ name (searched_start cwd directory) Hin) in Hname.
    discriminate. }
  destruct (isPathRoot cwd (resolve cwd [directory])) eqn:Hroot; [reflexivity|].
  apply IH.
  - intros dir name Hs Hin. apply Hnone; [|exact Hin].
    now apply searchedFrom_parent.
  - pose proof (step_decreases directory Hroot). lia.
Qed.

End Search.

End FindUpFacts.

(** C10. With an absolute working directory, the upward search ends: each
    step goes to a strictly shorter directory, so that [findUpEffect]
    gives the same answer for every amount of fuel above the length of the
    start directory, and [findUp] and [findProjectRoot] return. When none
    of the names exists in any directory the search looks into, both
    return [undefined]; a root directory that is given is returned as it
    is. *)
Theorem upward_search_terminates (cwd : string) (fs : gmap string Node) :
  JS.startsWithSlash cwd = true ->
  (forall directory,
      Helper.isPathRoot cwd (NodePath.resolve cwd [directory]) = false ->
      (String.length
         (NodePath.resolve cwd [NodePath.dirname (NodePath.resolve cwd [directory])])
       < String.length (NodePath.resolve cwd [directory]))%nat)
  /\ (forall names directory, exists r, forall fuel,
         (Helper.searchFuel cwd directory <= fuel)%nat ->
         Helper.findUpEffect cwd fuel names directory fs = Some r)
  /\ (forall name, exists r, Helper.findUp cwd name fs = Some r)
  /\ (forall rootDir, exists r, Helper.findProjectRoot cwd rootDir fs = Some r)
  /\ (forall name,
         (forall dir, Helper.searchedFrom cwd cwd dir ->
                      EffectFs.safeFileExists fs (NodePath.join [dir; name]) = false) ->
         Helper.findUp cwd name fs = Some None)
  /\ ((forall dir name,
          Helper.searchedFrom cwd cwd dir -> In name Helper.lockfiles ->
          EffectFs.safeFileExists fs (NodePath.join [dir; name]) = false) ->
      Helper.findProjectRoot cwd None fs = Some None)
  /\ (forall rootDir,
         Helper.findProjectRoot cwd (Some rootDir) fs = Some (Some rootDir)).
Proof.
  intros Habs.
  assert (forall names directory, exists r, forall fuel,
             (Helper.searchFuel cwd directory <= fuel)%nat ->
             Helper.findUpEffect cwd fuel names directory fs = Some r) as Htotal.
  { intros names directory.
    destruct (FindUpFacts.findUpEffect_total cwd Habs fs names _ directory (le_n _))
      as [r Hr].
    exists r. intros fuel Hf. apply Hr. unfold Helper.searchFuel in Hf. lia. }
  split; [intros directory; now apply FindUpFacts.step_decreases|].
  split; [exact Htotal|].
  split.
  { intros name. destruct (Htotal [name] cwd) as [r Hr].
    exists (Helper.orUndefined r). unfold Helper.findUp.
    now rewrite (Hr _ (le_n _)). }
  split.
  { intros [dir|]; [now exists (Some dir)|].
    destruct (Htotal Helper.lockfiles cwd) as [r Hr].
    exists (Helper.orUndefined r). unfold Helper.findProjectRoot.
    now rewrite (Hr _ (le_n _)). }
  split.
  { intros name Hnone. unfold Helper.findUp.
    rewrite (FindUpFacts.findUpEffect_none cwd Habs fs [name]); [reflexivity| |].
    - intros dir name' Hs [<- | []]. now apply Hnone.
    - unfold Helper.searchFuel. lia. }
  split; [|reflexivity].
  intros Hnone. unfold Helper.findProjectRoot.
  rewrite (FindUpFacts.findUpEffect_none cwd Habs fs Helper.lockfiles);
    [reflexivity | exact Hnone |].
  unfold Helper.searchFuel. lia.
Qed.

Lemma upward_search_terminates_witness :
  Helper.findUp "/proj/lib" "Makefile" Sample.tree = Some None
  /\ Helper.findProjectRoot "/proj/lib" None Sample.tree = Some None
  /\ Helper.findProjectRoot "/proj/lib" (Some "/srv") Sample.tree = Some (Some "/srv").
Proof.
  destruct (upward_search_terminates "/proj/lib" Sample.tree eq_refl)
    as (_ & _ & _ & _ & HfindUp & Hproject & Hgiven).
  assert (forall dir, Helper.searchedFrom "/proj/lib" "/proj/lib" dir ->
                      dir = "/proj/lib" \/ dir = "/proj" \/ dir = "/") as Hdirs.
  { intros dir Hs. induction Hs as [|dir Hs IH Hroot];
      [left; vm_compute; reflexivity|].
    destruct IH as [-> | [-> | ->]];
      [right; left; vm_compute; reflexivity
      | right; right; vm_compute; reflexivity
      | vm_compute in Hroot; discriminate]. }
  split; [|split].
  - apply HfindUp. intros dir Hs.
    destruct (Hdirs dir Hs) as [-> | [-> | ->]]; vm_compute; reflexivity.
  - apply Hproject. intros dir name Hs Hin.
    destruct (Hdirs dir Hs) as [-> | [-> | ->]];
      destruct Hin as [<- | [<- | [<- | []]]]; vm_compute; reflexivity.
  - apply Hgiven.
Defined.

(** ** The archiver: modes and directories *)

(** C5. When the internal writer has appended its entries, every file of
    the list that is not a directory was found by [stat] at its
    [rootPath], its mode was recorded under that path, and the archive has
    an entry with its [localPath], its bytes and that mode. The tree the
    writer sees is the one in which the stream on [zipPath] is open. *)
Theorem internal_writer_preserves_modes
    (now : Z) (zipPath : string) (files : IFiles) (fs fs' : gmap string Node)
    (entries : list Helper.ZipEntry) (file : IFile) (bytes : string) (m t : Z) :
  Helper.appended now zipPath files fs = (Done entries, fs') ->
  In file files ->
  fs' !! rootPath file = Some (File bytes m t) ->
  fs' = Helper.opened now zipPath fs
  /\ NodeFs.stat (rootPath file) fs' = (Done (mkStats false m t), fs')
  /\ (exists fileModes,
         Helper.collectModes files ∅ fs' = (Done fileModes, fs')
         /\ fileModes !! rootPath file = Some m)
  /\ In (Helper.mkZipEntry (localPath file) bytes (Some m) 0) entries.
Proof.
  intros H Hin Hfile.
  apply NodeZipFacts.appended_inv in H
    as [([= ->] & Hopen & fileModes & Hm) | [(e & ? & _) | (? & _)]];
    try discriminate.
  split; [exact Hopen|]. split.
  { unfold NodeFs.stat. now rewrite Hfile. }
  split.
  - exists fileModes. split; [exact Hm|].
    rewrite (NodeZipFacts.collectModes_recorded _ _ _ _ Hm file Hin).
    unfold Helper.recordedMode. now rewrite Hfile.
  - now apply (NodeZipFacts.entriesOf_In fs' files file bytes m t).
Qed.

Lemma internal_writer_preserves_modes_witness :
  In (Helper.mkZipEntry "bin/run.sh" "#!" (Some 493) 0)
     (Helper.entriesOf (Helper.opened 1700 "/out/hello1.zip" Sample.disk)
        Sample.files).
Proof.
  apply (internal_writer_preserves_modes 1700 "/out/hello1.zip" Sample.files
           Sample.disk (Helper.opened 1700 "/out/hello1.zip" Sample.disk)
           (Helper.entriesOf (Helper.opened 1700 "/out/hello1.zip" Sample.disk)
              Sample.files)
           (mkIFile "bin/run.sh" "/proj/run.sh") "#!" 493 12).
  - vm_compute. reflexivity.
  - simpl. auto.
  - vm_compute. reflexivity.
Defined.

(** C8. When the internal writer has appended its entries, no mode was
    recorded for a file of the list that is a directory, and the entries
    are those of the files that are not directories, in the order of the
    list: each entry comes from such a file. *)
Theorem internal_writer_skips_directories
    (now : Z) (zipPath : string) (files : IFiles) (fs fs' : gmap string Node)
    (entries : list Helper.ZipEntry) :
  Helper.appended now zipPath files fs = (Done entries, fs') ->
  (forall file m t,
      In file files ->
      fs' !! rootPath file = Some (Directory m t) ->
      exists fileModes,
        Helper.collectModes files ∅ fs' = (Done fileModes, fs')
        /\ fileModes !! rootPath file = None)
  /\ entries = Helper.entriesOf fs' files
  /\ map Helper.name entries
     = map localPath (List.filter (Helper.isRegular fs') files)
  /\ (forall entry,
         In entry entries ->
         exists file bytes m t,
           In file files
           /\ fs' !! rootPath file = Some (File bytes m t)
           /\ entry = Helper.mkZipEntry (localPath file) bytes (Some m) 0).
Proof.
  intros H.
  apply NodeZipFacts.appended_inv in H
    as [([= ->] & Hopen & fileModes & Hm) | [(e & ? & _) | (? & _)]];
    try discriminate.
  split.
  { intros file m t Hin Hdir. exists fileModes. split; [exact Hm|].
    rewrite (NodeZipFacts.collectModes_recorded _ _ _ _ Hm file Hin).
    unfold Helper.recordedMode. now rewrite Hdir. }
  split; [reflexivity|]. split; [apply NodeZipFacts.entriesOf_names|].
  intros entry Hin. unfold Helper.entriesOf in Hin.
  apply in_flat_map in Hin as (file & Hfile & Hin).
  destruct (fs' !! rootPath file) as [[bytes m t | m t]|] eqn:E;
    simpl in Hin; try contradiction.
  destruct Hin as [<- | []]. exists file, bytes, m, t. auto.
Qed.

Lemma internal_writer_skips_directories_witness :
  map Helper.name
    (Helper.entriesOf (Helper.opened 1700 "/out/hello1.zip" Sample.disk)
       Sample.files)
  = ["a.js"; "bin/run.sh"].
Proof.
  pose proof (internal_writer_skips_directories 1700 "/out/hello1.zip"
                Sample.files Sample.disk
                (Helper.opened 1700 "/out/hello1.zip" Sample.disk)
                (Helper.entriesOf (Helper.opened 1700 "/out/hello1.zip" Sample.disk)
                   Sample.files)) as H.
  destruct H as (_ & _ & Hnames & _).
  - vm_compute. reflexivity.
  - rewrite Hnames. vm_compute. reflexivity.
Defined.

(** ** The archiver: determinism *)

(** C1 (as stated, refuted). With the native strategy the archive is
    what the external utility makes of the staged copies, and a copy
    carries the time at which it was made. With a utility that stores the
    modification times, as the zip format has it, two calls of [zip] on
    the same tree at two different times both succeed and leave archives
    with different bytes. *)
Lemma native_archive_depends_on_time :
  (Helper.zip "/tmp" Sample.storing Sample.listing 1700 "/out/hello1.zip"
     Sample.files (Some true) Sample.tree).1 = Done tt
  /\ (Helper.zip "/tmp" Sample.storing Sample.listing 9999 "/out/hello1.zip"
        Sample.files (Some true) Sample.tree).1 = Done tt
  /\ Helper.fileData
       (Helper.zip "/tmp" Sample.storing Sample.listing 1700 "/out/hello1.zip"
          Sample.files (Some true) Sample.tree).2 "/out/hello1.zip"
     = Some "a.js=AAA@1700|bin/run.sh=#!@1700|lib/x.js=X@1700"
  /\ Helper.fileData
       (Helper.zip "/tmp" Sample.storing Sample.listing 9999 "/out/hello1.zip"
          Sample.files (Some true) Sample.tree).2 "/out/hello1.zip"
     = Some "a.js=AAA@9999|bin/run.sh=#!@9999|lib/x.js=X@9999".
Proof. vm_compute. auto. Qed.

(** C1 (amended). With the internal writer, two trees that hold, at every
    root path of the list, the same bytes with the same mode, whatever
    the timestamps, give the same archive bytes at [zipPath]: the writer
    gives every entry the date of the epoch and, of the metadata of a
    file, only its mode. This holds for two calls of [nodeZip] that
    resolve, and for two calls of [zip] without the native strategy that
    succeed, at any two times, when the sources and the archive lie
    outside the staging directory and the files are staged inside it. *)
Theorem archive_deterministic (archiver : list Helper.ZipEntry -> Helper.ArchiveStream) :
  (forall now1 now2 zipPath files (fs1 fs2 fs1' fs2' : gmap string Node),
      (forall file, In file files ->
         timeless <$> fs1 !! rootPath file = timeless <$> fs2 !! rootPath file) ->
      Helper.nodeZip archiver now1 zipPath files fs1 = (Done tt, fs1') ->
      Helper.nodeZip archiver now2 zipPath files fs2 = (Done tt, fs2') ->
      exists entries bytes,
        Helper.appended now1 zipPath files fs1
        = (Done entries, Helper.opened now1 zipPath fs1)
        /\ Helper.appended now2 zipPath files fs2
           = (Done entries, Helper.opened now2 zipPath fs2)
        /\ Forall (fun entry => Helper.date entry = 0) entries
        /\ archiver entries = Helper.Finalized bytes
        /\ Helper.fileData fs1' zipPath = Some bytes
        /\ Helper.fileData fs2' zipPath = Some bytes)
  /\ (forall tmpdir bestzip now1 now2 zipPath files useNativeZip
             (fs1 fs2 fs1' fs2' : gmap string Node),
         useNativeZip <> Some true ->
         (forall file, In file files ->
            timeless <$> fs1 !! rootPath file = timeless <$> fs2 !! rootPath file) ->
         Helper.wellSeparated tmpdir now1 zipPath files ->
         Helper.wellSeparated tmpdir now2 zipPath files ->
         Helper.zip tmpdir bestzip archiver now1 zipPath files useNativeZip fs1
         = (Done tt, fs1') ->
         Helper.zip tmpdir bestzip archiver now2 zipPath files useNativeZip fs2
         = (Done tt, fs2') ->
         exists bytes,
           Helper.fileData fs1' zipPath = Some bytes
           /\ Helper.fileData fs2' zipPath = Some bytes).
Proof.
  split.
  - intros now1 now2 zipPath files fs1 fs2 fs1' fs2' Hagree H1 H2.
    destruct (ZipFacts.nodeZip_deterministic archiver now1 now2 zipPath files
                fs1 fs2 fs1' fs2' Hagree H1 H2)
      as (entries & bytes & m1 & m2 & E1 & E2 & Harch & -> & ->).
    exists entries, bytes.
    assert (forall now fs o fs',
               Helper.nodeZip archiver now zipPath files fs = (Done o, fs') ->
               Helper.appended now zipPath files fs
               = (Done (Helper.entriesOf (Helper.opened now zipPath fs) files),
                  Helper.opened now zipPath fs)) as Happ.
    { intros now fs o fs' H. unfold Helper.nodeZip in H.
      apply EffFacts.andThen_inv in H
        as [(es & fs3 & Ha & _) | [(e & _ & ?) | (_ & ?)]]; try discriminate.
      pose proof Ha as Ha'.
      apply NodeZipFacts.appended_inv in Ha'
        as [([= ->] & -> & _) | [(e & ? & _) | (? & _)]]; try discriminate.
      exact Ha. }
    split; [rewrite E1; exact (Happ _ _ _ _ H1)|].
    split; [rewrite E2; exact (Happ _ _ _ _ H2)|].
    split; [rewrite E1; apply NodeZipFacts.entriesOf_dates|].
    split; [exact Harch|].
    unfold Helper.fileData. rewrite !lookup_insert_eq. auto.
  - intros tmpdir bestzip now1 now2 zipPath files useNativeZip
           fs1 fs2 fs1' fs2' Hnode Hagree Hsep1 Hsep2 H1 H2.
    apply ZipFacts.zip_run in H1. apply ZipFacts.zip_run in H2.
    inversion H1 as [ | | | staged1 prepared1 o1 fs31 _ Hst1 Hmk1 Har1 _ | ];
      subst; clear H1.
    inversion H2 as [ | | | staged2 prepared2 o2 fs32 _ Hst2 Hmk2 Har2 _ | ];
      subst; clear H2.
    assert (forall now prepared fs3,
               Helper.archiving bestzip archiver now zipPath files useNativeZip
                 (Helper.stagingDir tmpdir now zipPath) prepared = (Done tt, fs3) ->
               Helper.nodeZip archiver now zipPath files prepared = (Done tt, fs3))
      as Hnz.
    { intros now prepared fs3 H. unfold Helper.archiving in H.
      destruct useNativeZip as [[|]|]; [now destruct Hnode| |];
        apply EffFacts.tryPromise_inv in H
          as [([] & H & _) | [(e & _ & ?) | (_ & ?)]]; auto; discriminate. }
    apply Hnz in Har1, Har2.
    destruct (ZipFacts.nodeZip_deterministic archiver now1 now2 zipPath files
                prepared1 prepared2 fs31 fs32)
      as (entries & bytes & m1 & m2 & _ & _ & _ & -> & ->); auto.
    + intros file Hin.
      apply (ZipFacts.makePath_agree now1 now2 (NodePath.dirname zipPath)
               staged1 staged2 prepared1 prepared2); auto.
      rewrite (ZipFacts.staged_sources tmpdir now1 zipPath files fs1 _ staged1 file
                 Hsep1 Hst1 Hin).
      rewrite (ZipFacts.staged_sources tmpdir now2 zipPath files fs2 _ staged2 file
                 Hsep2 Hst2 Hin).
      now apply Hagree.
    + exists bytes. unfold Helper.fileData.
      rewrite !FsFacts.removeTree_outside by (apply Hsep1 || apply Hsep2).
      rewrite !lookup_insert_eq. auto.
Qed.

Lemma archive_deterministic_witness :
  exists bytes,
    Helper.fileData
      (Helper.zip "/tmp" Sample.noNative Sample.listing 1700 "/out/hello1.zip"
         Sample.files None Sample.tree).2 "/out/hello1.zip" = Some bytes
    /\ Helper.fileData
         (Helper.zip "/tmp" Sample.noNative Sample.listing 9999 "/out/hello1.zip"
            Sample.files None Sample.touchedTree).2 "/out/hello1.zip" = Some bytes.
Proof.
  apply (proj2 (archive_deterministic Sample.listing)
           "/tmp" Sample.noNative 1700 9999 "/out/hello1.zip" Sample.files None
           Sample.tree Sample.touchedTree).
  - discriminate.
  - intros file [<- | [<- | [<- | []]]]; vm_compute; reflexivity.
  - split; [vm_compute; reflexivity|].
    intros file [<- | [<- | [<- | []]]]; vm_compute; auto.
  - split; [vm_compute; reflexivity|].
    intros file [<- | [<- | [<- | []]]]; vm_compute; auto.
  - vm_compute. reflexivity.
  - vm_compute. reflexivity.
Defined.

(** ** The archiver: the staging directory *)

(** C2. A call of [zip] that returns, with success or with an error, has
    either made its staging directory where nothing was, staged the files
    with the directory in place, and returned with nothing left at or
    below the path of the directory; or it has found the path taken,
    failed to make the directory and left the tree as it found it. What
    [zip] stages is covered by the removal: when the files are staged
    inside the directory, the staged tree without the directory is the
    tree before the call. *)
Theorem temp_directory_removed
    (tmpdir : string) (bestzip : string -> string -> Eff unit)
    (archiver : list Helper.ZipEntry -> Helper.ArchiveStream)
    (now : Z) (zipPath : string) (files : IFiles) (useNativeZip : option bool)
    (fs fs' : gmap string Node) (o : Outcome unit) :
  Helper.zip tmpdir bestzip archiver now zipPath files useNativeZip fs = (o, fs') ->
  o <> Unsettled ->
  (occupied (Helper.stagingDir tmpdir now zipPath) fs = false
   /\ (exists o1 staged,
         Helper.staging now (Helper.stagingDir tmpdir now zipPath) files
           (Helper.acquired tmpdir now zipPath fs) = (o1, staged)
         /\ is_Some (staged !! Helper.stagingDir tmpdir now zipPath)
         /\ ((forall file, In file files ->
                inside (Helper.stagingDir tmpdir now zipPath)
                  (Helper.stagedPath (Helper.stagingDir tmpdir now zipPath) file)
                = true) ->
             removeTree (Helper.stagingDir tmpdir now zipPath) staged = fs))
   /\ forall p, inside (Helper.stagingDir tmpdir now zipPath) p = true ->
                fs' !! p = None)
  \/ (occupied (Helper.stagingDir tmpdir now zipPath) fs = true
      /\ o = Fail (SystemError "mkdir" (Helper.stagingDir tmpdir now zipPath))
      /\ fs' = fs).
Proof.
  intros H Hsettled. apply ZipFacts.zip_run in H.
  assert (forall o1 staged,
             occupied (Helper.stagingDir tmpdir now zipPath) fs = false ->
             Helper.staging now (Helper.stagingDir tmpdir now zipPath) files
               (Helper.acquired tmpdir now zipPath fs) = (o1, staged) ->
             exists o1 staged,
               Helper.staging now (Helper.stagingDir tmpdir now zipPath) files
                 (Helper.acquired tmpdir now zipPath fs) = (o1, staged)
               /\ is_Some (staged !! Helper.stagingDir tmpdir now zipPath)
               /\ ((forall file, In file files ->
                      inside (Helper.stagingDir tmpdir now zipPath)
                        (Helper.stagedPath (Helper.stagingDir tmpdir now zipPath) file)
                      = true) ->
                   removeTree (Helper.stagingDir tmpdir now zipPath) staged = fs))
    as Hstaged.
  { intros o1 staged Hocc Hst. exists o1, staged. split; [exact Hst|]. split.
    - apply (ZipFacts.staging_keeps _ _ _ _ _ _ _ Hst).
      unfold Helper.acquired. rewrite lookup_insert_eq. eauto.
    - intros Hin. apply ZipFacts.closed_scope; [exact Hocc|]. intros q Hq.
      exact (ZipFacts.staged_frame tmpdir now zipPath files fs _ _ q Hin Hst Hq). }
  destruct H as [Hocc | e fs1 Hocc Hst | staged e Hocc Hst Hmk
                 | staged prepared o3 fs3 Hocc Hst Hmk Har _
                 | staged prepared fs3 Hocc Hst Hmk Har ].
  - right. auto.
  - left. split; [exact Hocc|]. split; [exact (Hstaged _ _ Hocc Hst)|].
    intros p Hp. now apply FsFacts.removeTree_inside.
  - left. split; [exact Hocc|]. split; [exact (Hstaged _ _ Hocc Hst)|].
    intros p Hp. now apply FsFacts.removeTree_inside.
  - left. split; [exact Hocc|]. split; [exact (Hstaged _ _ Hocc Hst)|].
    intros p Hp. now apply FsFacts.removeTree_inside.
  - now destruct Hsettled.
Qed.

Lemma temp_directory_removed_witness :
  (Helper.zip "/tmp" Sample.noNative Sample.broken 1700 "/out/hello1.zip"
     Sample.files None Sample.tree).2 !! "/tmp/hello1-1700" = None
  /\ (Helper.zip "/tmp" Sample.noNative Sample.broken 1700 "/out/hello1.zip"
        Sample.files None Sample.tree).2 !! "/tmp/hello1-1700/lib/x.js" = None
  /\ exists staged,
       (Helper.staging 1700 "/tmp/hello1-1700" Sample.files
          (Helper.acquired "/tmp" 1700 "/out/hello1.zip" Sample.tree)).2 = staged
       /\ removeTree "/tmp/hello1-1700" staged = Sample.tree.
Proof.
  destruct (temp_directory_removed "/tmp" Sample.noNative Sample.broken 1700
              "/out/hello1.zip" Sample.files None Sample.tree
              (Helper.zip "/tmp" Sample.noNative Sample.broken 1700 "/out/hello1.zip"
                 Sample.files None Sample.tree).2
              (Fail (UnknownException (ArchiverError "write failed"))))
    as [(_ & (o1 & staged & Hst & _ & Hundo) & H) | [H _]].
  - vm_compute. reflexivity.
  - discriminate.
  - split; [apply H; vm_compute; reflexivity|].
    split; [apply H; vm_compute; reflexivity|].
    exists staged. split.
    + change (Helper.stagingDir "/tmp" 1700 "/out/hello1.zip")
        with "/tmp/hello1-1700" in Hst.
      now rewrite Hst.
    + apply Hundo.
      intros file [<- | [<- | [<- | []]]]; vm_compute; reflexivity.
  - vm_compute in H. discriminate.
Defined.

(** ** The archiver: the archive path *)

(** C3 (as stated, refuted). The internal writer opens its stream on
    [zipPath] itself: when the writer fails after two bytes, the call of
    [zip] fails and leaves these two bytes at [zipPath], where there was
    nothing before. *)
Lemma partial_archive_left :
  (Helper.zip "/tmp" Sample.noNative Sample.broken 1700 "/out/hello1.zip"
     Sample.files None Sample.tree).1
  = Fail (UnknownException (ArchiverError "write failed"))
  /\ Sample.tree !! "/out/hello1.zip" = None
  /\ (Helper.zip "/tmp" Sample.noNative Sample.broken 1700 "/out/hello1.zip"
        Sample.files None Sample.tree).2 !! "/out/hello1.zip"
     = Some (File "PK" 420 1700).
Proof. vm_compute. auto. Qed.

(** C3 (amended). In a well separated call of [zip]: a call that fails
    with the error of a copy leaves [zipPath] as it was, because the
    archive is opened only when everything is staged; a call with the
    internal writer that fails with the error of the writer leaves at
    [zipPath] the bytes that the writer had written. *)
Theorem archive_written_in_place
    (tmpdir : string) (bestzip : string -> string -> Eff unit)
    (archiver : list Helper.ZipEntry -> Helper.ArchiveStream)
    (now : Z) (zipPath : string) (files : IFiles) (useNativeZip : option bool)
    (fs fs' : gmap string Node) (o : Outcome unit) :
  Helper.zip tmpdir bestzip archiver now zipPath files useNativeZip fs = (o, fs') ->
  Helper.wellSeparated tmpdir now zipPath files ->
  (forall path, o = Fail (SystemError "copy" path) ->
                fs' !! zipPath = fs !! zipPath)
  /\ (forall message,
         useNativeZip <> Some true ->
         o = Fail (UnknownException (ArchiverError message)) ->
         exists entries partial,
           archiver entries = Helper.Errored partial message
           /\ Helper.fileData fs' zipPath = Some partial).
Proof.
  intros H Hsep. apply ZipFacts.zip_run in H. pose proof Hsep as [Hzip Hfiles].
  assert (forall o1 fs1,
             Helper.staging now (Helper.stagingDir tmpdir now zipPath) files
               (Helper.acquired tmpdir now zipPath fs) = (o1, fs1) ->
             fs1 !! zipPath = fs !! zipPath) as Hstaged.
  { intros o1 fs1 Hst. apply ZipFacts.staging_inv in Hst as [_ Hout].
    rewrite Hout.
    - apply lookup_insert_ne. intros E.
      rewrite E, FsFacts.inside_refl in Hzip. discriminate.
    - intros g Hg. destruct (Hfiles g Hg) as [_ Hdst].
      exact (FsFacts.outside_trans _ _ _ Hdst Hzip). }
  split.
  - intros path ->.
    inversion H as [ | e fs1 _ Hst | staged e _ _ Hmk
                     | staged prepared o3 fs3 _ _ _ Har _ | ]; subst.
    + rewrite FsFacts.removeTree_outside by exact Hzip. exact (Hstaged _ _ Hst).
    + apply ZipFacts.makePath_inv in Hmk as [[? _] | [? _]]; discriminate.
    + unfold Helper.archiving in Har.
      destruct useNativeZip as [[|]|];
        apply EffFacts.tryPromise_inv in Har
          as [(? & _ & ?) | [(? & _ & ?) | (_ & ?)]]; discriminate.
  - intros message Hnode ->.
    inversion H as [ | e fs1 _ Hst | staged e _ _ Hmk
                     | staged prepared o3 fs3 _ _ _ Har _ | ]; subst.
    + apply ZipFacts.staging_failure in Hst as [path ?]. discriminate.
    + apply ZipFacts.makePath_inv in Hmk as [[? _] | [? _]]; discriminate.
    + unfold Helper.archiving in Har.
      assert (Helper.nodeZip archiver now zipPath files prepared
              = (Fail (ArchiverError message), fs3)) as Hnz.
      { destruct useNativeZip as [[|]|]; [now destruct Hnode| |];
          apply EffFacts.tryPromise_inv in Har
            as [(? & _ & ?) | [(e & Hnz & [= <-]) | (_ & ?)]];
          try discriminate; exact Hnz. }
      apply ZipFacts.nodeZip_inv in Hnz
        as [(? & ? & ? & _) | [(partial & msg & m & [= <-] & Harch & ->)
                               | [(? & _ & _ & ? & _) | (? & _)]]];
        try discriminate.
      eexists _, partial. split; [exact Harch|].
      unfold Helper.fileData.
      rewrite FsFacts.removeTree_outside by exact Hzip.
      now rewrite lookup_insert_eq.
Qed.

Lemma archive_written_in_place_witness :
  exists entries partial,
    Sample.broken entries = Helper.Errored partial "write failed"
    /\ Helper.fileData
         (Helper.zip "/tmp" Sample.noNative Sample.broken 1700 "/out/hello1.zip"
            Sample.files None Sample.tree).2 "/out/hello1.zip" = Some partial.
Proof.
  apply (proj2 (archive_written_in_place "/tmp" Sample.noNative Sample.broken 1700
                  "/out/hello1.zip" Sample.files None Sample.tree
                  (Helper.zip "/tmp" Sample.noNative Sample.broken 1700
                     "/out/hello1.zip" Sample.files None Sample.tree).2
                  (Fail (UnknownException (ArchiverError "write failed")))
                  ltac:(vm_compute; reflexivity)
                  ltac:(split; [vm_compute; reflexivity|];
                        intros file [<- | [<- | [<- | []]]]; vm_compute; auto))).
  - discriminate.
  - reflexivity.
Defined.

(** ** The archiver: staging *)

(** C4 (as stated, refuted). The internal writer does not read the staged
    directory: for a list with a directory, the directory is staged with
    the file [x.js] inside it, the call succeeds, and the archive has no
    entry at all. *)
Lemma staged_directory_not_archived :
  exists staged prepared,
    Helper.staging 1700 "/tmp/hello1-1700" Sample.libOnly
      (Helper.acquired "/tmp" 1700 "/out/hello1.zip" Sample.tree)
    = (Done tt, staged)
    /\ staged !! "/tmp/hello1-1700/lib/x.js" = Some (File "X" 420 1700)
    /\ EffectFs.makePath 1700 "/out" staged = (Done tt, prepared)
    /\ (Helper.appended 1700 "/out/hello1.zip" Sample.libOnly prepared).1 = Done []
    /\ Helper.zip "/tmp" Sample.noNative Sample.listing 1700 "/out/hello1.zip"
         Sample.libOnly None Sample.tree
       = (Done tt,
          <["/out/hello1.zip" := File "" 420 1700]>
            (<["/out" := Directory 493 1700]> Sample.tree)).
Proof.
  exists (Helper.staging 1700 "/tmp/hello1-1700" Sample.libOnly
            (Helper.acquired "/tmp" 1700 "/out/hello1.zip" Sample.tree)).2.
  exists (EffectFs.makePath 1700 "/out"
            (Helper.staging 1700 "/tmp/hello1-1700" Sample.libOnly
               (Helper.acquired "/tmp" 1700 "/out/hello1.zip" Sample.tree)).2).2.
  repeat split; vm_compute; reflexivity.
Qed.

(** C4 (amended). A call of [zip] that succeeds has made its staging
    directory where nothing was and has copied every file of the list, in
    the order of the list, from its root path to its staged path, before
    it prepared the folder of the archive and archived. The copy of a
    file that is not a directory is a file with its bytes and its mode;
    the copy of a directory holds every node that was at or below the
    directory; what is copied is what is at the root path when the turn
    of the file comes. The native strategy runs the utility in the staging
    directory. The internal writer takes its entries from the root paths
    of the list, not from the staging directory: they are named by the
    local paths of the files that are not directories, in the order of the
    list, and a directory of the list gets no entry. *)
Theorem staged_before_archived
    (tmpdir : string) (bestzip : string -> string -> Eff unit)
    (archiver : list Helper.ZipEntry -> Helper.ArchiveStream)
    (now : Z) (zipPath : string) (files : IFiles) (useNativeZip : option bool)
    (fs fs' : gmap string Node) :
  Helper.zip tmpdir bestzip archiver now zipPath files useNativeZip fs
  = (Done tt, fs') ->
  exists staged prepared,
    (forall p, inside (Helper.stagingDir tmpdir now zipPath) p = true ->
               fs !! p = None)
    /\ Helper.staging now (Helper.stagingDir tmpdir now zipPath) files
         (Helper.acquired tmpdir now zipPath fs) = (Done tt, staged)
    /\ (forall before file after,
           files = before ++ file :: after ->
           exists mid next,
             Helper.staging now (Helper.stagingDir tmpdir now zipPath) before
               (Helper.acquired tmpdir now zipPath fs) = (Done tt, mid)
             /\ EffectFs.copy now (rootPath file)
                  (Helper.stagedPath (Helper.stagingDir tmpdir now zipPath) file) mid
                = (Done tt, next)
             /\ Helper.staging now (Helper.stagingDir tmpdir now zipPath) after next
                = (Done tt, staged)
             /\ is_Some (mid !! rootPath file)
             /\ (forall bytes m t,
                    mid !! rootPath file = Some (File bytes m t) ->
                    next !! Helper.stagedPath (Helper.stagingDir tmpdir now zipPath) file
                    = Some (File bytes m now))
             /\ (forall m t,
                    mid !! rootPath file = Some (Directory m t) ->
                    forall p n,
                      mid !! p = Some n ->
                      inside (rootPath file) p = true ->
                      next !! rebase (rootPath file)
                                (Helper.stagedPath
                                   (Helper.stagingDir tmpdir now zipPath) file) p
                      = Some (touch now n)))
    /\ EffectFs.makePath now (NodePath.dirname zipPath) staged = (Done tt, prepared)
    /\ (useNativeZip = Some true ->
        exists fs3,
          bestzip (Helper.stagingDir tmpdir now zipPath) zipPath prepared
          = (Done tt, fs3)
          /\ fs' = removeTree (Helper.stagingDir tmpdir now zipPath) fs3)
    /\ (useNativeZip <> Some true ->
        exists bytes m,
          archiver (Helper.entriesOf (Helper.opened now zipPath prepared) files)
          = Helper.Finalized bytes
          /\ map Helper.name
               (Helper.entriesOf (Helper.opened now zipPath prepared) files)
             = map localPath
                 (List.filter (Helper.isRegular (Helper.opened now zipPath prepared))
                    files)
          /\ fs' = removeTree (Helper.stagingDir tmpdir now zipPath)
                     (<[zipPath := File bytes m now]>
                        (Helper.opened now zipPath prepared))).
Proof.
  intros H. apply ZipFacts.zip_run in H.
  inversion H as [ | | | staged prepared o3 fs3 Hocc Hst Hmk Har _ | ]; subst.
  exists staged, prepared.
  split; [exact (FsFacts.occupied_false _ _ Hocc)|]. split; [exact Hst|]. split.
  { intros before file after ->.
    destruct (ZipFacts.staging_split _ _ _ _ _ _ _ Hst)
      as (mid & next & Hbefore & Hcopy & Hafter).
    exists mid, next. split; [exact Hbefore|]. split; [exact Hcopy|].
    split; [exact Hafter|]. split; [exact (ZipFacts.copy_done _ _ _ _ _ Hcopy)|].
    split.
    - intros bytes m t Hsrc.
      rewrite (ZipFacts.copy_file now _ _ mid bytes m t Hsrc) in Hcopy.
      injection Hcopy as <-. apply lookup_insert_eq.
    - intros m t Hsrc p n Hp Hin. unfold EffectFs.copy in Hcopy.
      rewrite Hsrc in Hcopy. injection Hcopy as <-.
      now apply FsFacts.copyTree_inside. }
  split; [exact Hmk|].
  unfold Helper.archiving in Har. split.
  - intros ->.
    apply EffFacts.tryPromise_inv in Har
      as [([] & Hb & _) | [(e & _ & ?) | (_ & ?)]]; try discriminate. eauto.
  - intros Hnode.
    assert (Helper.nodeZip archiver now zipPath files prepared = (Done tt, fs3))
      as Hnz.
    { destruct useNativeZip as [[|]|]; [now destruct Hnode| |];
        apply EffFacts.tryPromise_inv in Har
          as [([] & Hnz & _) | [(e & _ & ?) | (_ & ?)]];
        try discriminate; exact Hnz. }
    apply ZipFacts.nodeZip_inv in Hnz
      as [(bytes & m & _ & Harch & ->) | [(? & ? & ? & ? & _)
                                         | [(? & _ & _ & ? & _) | (? & _)]]];
      try discriminate.
    exists bytes, m. split; [exact Harch|].
    split; [apply NodeZipFacts.entriesOf_names | reflexivity].
Qed.

Lemma staged_before_archived_witness :
  exists staged,
    Helper.staging 1700 (Helper.stagingDir "/tmp" 1700 "/out/hello1.zip")
      Sample.files (Helper.acquired "/tmp" 1700 "/out/hello1.zip" Sample.tree)
    = (Done tt, staged)
    /\ staged !! "/tmp/hello1-1700/lib" = Some (Directory 493 1700)
    /\ staged !! "/tmp/hello1-1700/lib/x.js" = Some (File "X" 420 1700).
Proof.
  destruct (staged_before_archived "/tmp" Sample.noNative Sample.listing 1700
              "/out/hello1.zip" Sample.files None Sample.tree
              (Helper.zip "/tmp" Sample.noNative Sample.listing 1700
                 "/out/hello1.zip" Sample.files None Sample.tree).2
              ltac:(vm_compute; reflexivity))
    as (staged & prepared & _ & Hst & Hcopied & _).
  exists staged. split; [exact Hst|].
  destruct (Hcopied [mkIFile "a.js" "/proj/a.js"; mkIFile "bin/run.sh" "/proj/run.sh"]
              (mkIFile "lib" "/proj/lib") [] eq_refl)
    as (mid & next & Hbefore & _ & Hafter & _ & _ & Hdir).
  injection Hafter as ->.
  assert (mid = (Helper.staging 1700 (Helper.stagingDir "/tmp" 1700 "/out/hello1.zip")
                   [mkIFile "a.js" "/proj/a.js"; mkIFile "bin/run.sh" "/proj/run.sh"]
                   (Helper.acquired "/tmp" 1700 "/out/hello1.zip" Sample.tree)).2)
    as Hmid by now rewrite Hbefore.
  split.
  - apply (Hdir 493 5 ltac:(rewrite Hmid; vm_compute; reflexivity)
             "/proj/lib" (Directory 493 5));
      [rewrite Hmid|]; vm_compute; reflexivity.
  - apply (Hdir 493 5 ltac:(rewrite Hmid; vm_compute; reflexivity)
             "/proj/lib/x.js" (File "X" 420 6));
      [rewrite Hmid|]; vm_compute; reflexivity.
Defined.

(** ** The dependency resolver *)

Module ResolverFacts.
Import DependencyResolver.








End ResolverFacts.




(** ** Runs on the sample data *)

Module Examples.

(** The path functions on the examples of the documentation of Node. *)
Example extname_examples :
  map NodePath.extname
    ["index.html"; "index.coffee.md"; "index."; "index"; ".index"; ".index.md";
     "file.ext/"; ".."]
  = [".html"; ".md"; "."; ""; ""; ".md"; ".ext"; ""].
Proof. vm_compute. reflexivity. Qed.

Example dirname_examples :
  map NodePath.dirname ["/foo/bar/baz/asdf/quux"; "/foo"; "/"; "foo"; "/foo/bar/"]
  = ["/foo/bar/baz/asdf"; "/"; "/"; "."; "/foo"].
Proof. vm_compute. reflexivity. Qed.

Example basename_examples :
  NodePath.basename "/foo/bar/baz/asdf/quux.html" "" = "quux.html"
  /\ NodePath.basename "/foo/bar/baz/asdf/quux.html" ".html" = "quux".
Proof. vm_compute. auto. Qed.

Example join_examples :
  NodePath.join ["/foo"; "bar"; "baz/asdf"; "quux"; ".."] = "/foo/bar/baz/asdf"
  /\ NodePath.normalize "/foo/bar//baz/asdf/quux/.." = "/foo/bar/baz/asdf".
Proof. vm_compute. auto. Qed.

Example resolve_examples :
  NodePath.resolve "/home/user" ["/foo/bar"; "./baz"] = "/foo/bar/baz"
  /\ NodePath.resolve "/home/user" ["/foo/bar"; "/tmp/file/"] = "/tmp/file"
  /\ NodePath.resolve "/home/user" ["wwwroot"; "static_files/png/"; "../gif/image.gif"]
     = "/home/user/wwwroot/static_files/gif/image.gif".
Proof. vm_compute. auto. Qed.

Example trimExtension_examples :
  map trimExtension ["src/hello1.ts"; "src/hello1"; "a.b/"]
  = ["src/hello1"; ""; "a."].
Proof. vm_compute. reflexivity. Qed.

(** The search finds the directory of [a.js] one level up. *)
Example findUp_example :
  Helper.findUp "/proj/lib" "a.js" Sample.tree = Some (Some "/proj").
Proof. vm_compute. reflexivity. Qed.

(** A call of [zip] with the internal writer: the archive holds the two
    files, the folder of the archive was made, and the staging directory
    is gone. *)
Example zip_example :
  Helper.zip "/tmp" Sample.noNative Sample.listing 1700 "/out/hello1.zip"
    Sample.files None Sample.tree
  = (Done tt,
     <["/out/hello1.zip" := File "a.js=AAA|bin/run.sh=#!" 420 1700]>
       (<["/out" := Directory 493 1700]> Sample.tree)).
Proof. vm_compute. reflexivity. Qed.

(** With the native strategy, the utility fails and the call fails with
    its error; nothing is staged any more. *)
Example zip_native_example :
  Helper.zip "/tmp" Sample.noNative Sample.listing 1700 "/out/hello1.zip"
    Sample.files (Some true) Sample.tree
  = (Fail (UnknownException (NativeZipError "zip: not found")),
     <["/out" := Directory 493 1700]> Sample.tree).
Proof. vm_compute. reflexivity. Qed.

(** A source that is missing: the copy fails, the archive is not opened. *)
Example zip_copy_error_example :
  Helper.zip "/tmp" Sample.noNative Sample.listing 1700 "/out/hello1.zip"
    [mkIFile "a.js" "/proj/a.js"; mkIFile "gone.js" "/proj/gone.js"] None
    Sample.tree
  = (Fail (SystemError "copy" "/proj/gone.js"), Sample.tree).
Proof. vm_compute. reflexivity. Qed.

(** An archive path that is a directory, or whose folder is missing or is
    a file: the stream cannot open its file and the promise of [nodeZip]
    never settles. A file of the list that is missing rejects it all the
    same. *)
Example nodeZip_unsettled_example :
  map (fun zipPath =>
         Helper.nodeZip Sample.listing 1700 zipPath Sample.files Sample.disk)
    ["/proj/lib"; "/gone/hello1.zip"; "/proj/a.js/hello1.zip"]
  = [(Unsettled, Sample.disk); (Unsettled, Sample.disk); (Unsettled, Sample.disk)]
  /\ Helper.nodeZip Sample.listing 1700 "/gone/hello1.zip"
       [mkIFile "gone.js" "/proj/gone.js"] Sample.disk
     = (Fail (SystemError "stat" "/proj/gone.js"), Sample.disk).
Proof. vm_compute. auto. Qed.

(** The internal writer on a disk that has the folder of the archive. *)
Example nodeZip_example :
  Helper.nodeZip Sample.listing 1700 "/out/hello1.zip" Sample.files Sample.disk
  = (Done tt,
     <["/out/hello1.zip" := File "a.js=AAA|bin/run.sh=#!" 420 1700]> Sample.disk).
Proof. vm_compute. reflexivity. Qed.

(** A function whose only external is hoisted resolves to nothing. *)
Example hoisted_only_example :
  DependencyResolver.resolveDependencies false ["lodash"]
    (Some SampleBuild.dependencyTree)
  = inr ∅
  /\ DependencyResolver.resolveDependencies false ["lodash"] None
     = inl DependencyResolver.DependencyTreeUnavailableError.
Proof. vm_compute. auto. Qed.

End Examples.

(* ===================================================================== *)
(** * Part III: further properties of [helper.ts] *)
(* ===================================================================== *)

(** ** The upward search: what it finds *)

Module FindUpResults.
Import NodePath PathFacts Helper.

Section Search.
Variable cwd : string.
Hypothesis cwd_absolute : JS.startsWithSlash cwd = true.
Variable fs : gmap string Node.

(** A searched directory is the start, or is searched from its parent. *)
Lemma searchedFrom_inv (directory d : string) :
  searchedFrom cwd directory d ->
  d = resolve cwd [directory]
  \/ (isPathRoot cwd (resolve cwd [directory]) = false
      /\ searchedFrom cwd (dirname (resolve cwd [directory])) d).
Proof.
  intros H. induction H as [|dir H IH Hroot]; [now left|]. right.
  destruct IH as [-> | [Hstart IH]].
  - split; [exact Hroot | apply searched_start].
  - split; [exact Hstart | now apply searched_parent].
Qed.

Lemma searchedFrom_resolved (directory d : string) :
  searchedFrom cwd directory d -> exists x, d = resolve cwd [x].
Proof. intros H. destruct H; eauto. Qed.

(** No searched directory is longer than the start. *)
Lemma searchedFrom_length (directory d : string) :
  searchedFrom cwd directory d ->
  (String.length d <= String.length (resolve cwd [directory]))%nat.
Proof.
  intros H. induction H as [|dir H IH Hroot]; [lia|].
  destruct (searchedFrom_resolved _ _ H) as [x ->].
  pose proof (FindUpFacts.step_decreases cwd cwd_absolute x Hroot). lia.
Qed.

Lemma existsb_exist_false (names : list string) (dir : string) :
  existsb (fun b => b)
    (map (fun name => EffectFs.safeFileExists fs (join [dir; name])) names) = false ->
  forall name, In name names ->
               EffectFs.safeFileExists fs (join [dir; name]) = false.
Proof.
  intros H name Hin. apply not_true_is_false. intros Hex.
  assert (existsb (fun b => b)
            (map (fun name => EffectFs.safeFileExists fs (join [dir; name])) names)
          = true) as Ht; [|rewrite Ht in H; discriminate].
  apply existsb_exists. exists true. split; [|reflexivity].
  apply in_map_iff. eauto.
Qed.

Lemma findUpEffect_found (names : list string) (fuel : nat) :
  forall directory dir,
    findUpEffect cwd fuel names directory fs = Some (Done dir) ->
    searchedFrom cwd directory dir
    /\ (exists name, In name names
                     /\ EffectFs.safeFileExists fs (join [dir; name]) = true)
    /\ (forall deeper name,
           searchedFrom cwd directory deeper ->
           (String.length dir < String.length deeper)%nat ->
           In name names ->
           EffectFs.safeFileExists fs (join [deeper; name]) = false).
Proof.
  induction fuel as [|fuel IH]; intros directory dir H; [discriminate|].
  simpl in H.
  destruct (existsb _ _) eqn:Hfound.
  - injection H as <-. split; [apply searched_start|]. split.
    + apply existsb_exists in Hfound as (b & Hin & Hb). subst b.
      apply in_map_iff in Hin as (name & Hname & Hin). eauto.
    + intros deeper name Hs Hlen _.
      apply searchedFrom_length in Hs. lia.
  - destruct (isPathRoot cwd (resolve cwd [directory])) eqn:Hroot; [discriminate|].
    apply IH in H as (Hs & Hname & Hnear).
    split; [now apply FindUpFacts.searchedFrom_parent|]. split; [exact Hname|].
    intros deeper name Hd Hlen Hin.
    apply searchedFrom_inv in Hd as [-> | [_ Hd]].
    + now apply (existsb_exist_false names).
    + now apply (Hnear deeper name).
Qed.

Lemma findUpEffect_failed (names : list string) (fuel : nat) :
  forall directory e,
    findUpEffect cwd fuel names directory fs = Some (Fail e) ->
    e = NoSuchElementException
    /\ forall dir name,
        searchedFrom cwd directory dir -> In name names ->
        EffectFs.safeFileExists fs (join [dir; name]) = false.
Proof.
  induction fuel as [|fuel IH]; intros directory e H; [discriminate|].
  simpl in H.
  destruct (existsb _ _) eqn:Hfound; [discriminate|].
  destruct (isPathRoot cwd (resolve cwd [directory])) eqn:Hroot.
  - injection H as <-. split; [reflexivity|]. intros dir name Hs Hin.
    apply searchedFrom_inv in Hs as [-> | [Hne _]]; [|congruence].
    now apply (existsb_exist_false names).
  - apply IH in H as [-> Hnone]. split; [reflexivity|].
    intros dir name Hs Hin.
    apply searchedFrom_inv in Hs as [-> | [_ Hs]].
    + now apply (existsb_exist_false names).
    + now apply Hnone.
Qed.

Lemma findUpEffect_settles (names : list string) (fuel : nat) :
  forall directory,
    findUpEffect cwd fuel names directory fs <> Some Unsettled.
Proof.
  induction fuel as [|fuel IH]; intros directory; simpl; [discriminate|].
  destruct (existsb _ _); [discriminate|].
  destruct (isPathRoot cwd _); [discriminate | apply IH].
Qed.

End Search.

End FindUpResults.

(** X1. A directory that [findUpEffect] answers is one the search looks
    into, holds one of the names, and is the nearest such directory: no
    longer directory of the search holds any of the names. *)
Theorem findUpEffect_finds_nearest
    (cwd : string) (fs : gmap string Node) (names : list string)
    (fuel : nat) (directory dir : string) :
  JS.startsWithSlash cwd = true ->
  Helper.findUpEffect cwd fuel names directory fs = Some (Done dir) ->
  Helper.searchedFrom cwd directory dir
  /\ (exists name, In name names
                   /\ EffectFs.safeFileExists fs (NodePath.join [dir; name]) = true)
  /\ (forall deeper name,
         Helper.searchedFrom cwd directory deeper ->
         (String.length dir < String.length deeper)%nat ->
         In name names ->
         EffectFs.safeFileExists fs (NodePath.join [deeper; name]) = false).
Proof.
  intros Habs H. exact (FindUpResults.findUpEffect_found cwd Habs fs names fuel _ _ H).
Qed.

Lemma findUpEffect_finds_nearest_witness :
  Helper.searchedFrom "/proj/lib" "/proj/lib" "/proj"
  /\ exists name, In name ["a.js"; "b.js"]
       /\ EffectFs.safeFileExists Sample.tree (NodePath.join ["/proj"; name]) = true.
Proof.
  destruct (findUpEffect_finds_nearest "/proj/lib" Sample.tree ["a.js"; "b.js"] 10
              "/proj/lib" "/proj" eq_refl ltac:(vm_compute; reflexivity))
    as (Hs & Hname & _).
  split; assumption.
Defined.

(** X2. [findUp] returns [undefined] exactly when the name is in none of
    the directories the search looks into, and otherwise a directory that
    holds the name. *)
Theorem findUp_undefined_iff (cwd : string) (fs : gmap string Node) (name : string) :
  JS.startsWithSlash cwd = true ->
  (Helper.findUp cwd name fs = Some None
   <-> forall dir, Helper.searchedFrom cwd cwd dir ->
                   EffectFs.safeFileExists fs (NodePath.join [dir; name]) = false)
  /\ (forall dir,
         Helper.findUp cwd name fs = Some (Some dir) ->
         Helper.searchedFrom cwd cwd dir
         /\ EffectFs.safeFileExists fs (NodePath.join [dir; name]) = true).
Proof.
  intros Habs. unfold Helper.findUp.
  destruct (Helper.findUpEffect cwd (Helper.searchFuel cwd cwd) [name] cwd fs)
    as [[dir | e |]|] eqn:H; simpl.
  - apply (FindUpResults.findUpEffect_found cwd Habs) in H
      as (Hs & (n & [<- | []] & Hn) & _).
    split.
    + split; [discriminate|]. intros Hnone. rewrite (Hnone dir Hs) in Hn. discriminate.
    + intros d [= <-]. auto.
  - apply (FindUpResults.findUpEffect_failed cwd fs) in H as [_ Hnone].
    split; [|discriminate]. split; [|reflexivity].
    intros _ dir Hs. apply (Hnone dir name Hs). now left.
  - now apply FindUpResults.findUpEffect_settles in H.
  - exfalso.
    destruct (FindUpFacts.findUpEffect_total cwd Habs fs [name] _ cwd (le_n _))
      as [r Hr].
    rewrite Hr in H; [discriminate|]. unfold Helper.searchFuel. lia.
Qed.

Lemma findUp_undefined_iff_witness :
  Helper.searchedFrom "/proj/lib" "/proj/lib" "/proj"
  /\ EffectFs.safeFileExists Sample.tree (NodePath.join ["/proj"; "a.js"]) = true.
Proof.
  apply (proj2 (findUp_undefined_iff "/proj/lib" Sample.tree "a.js" eq_refl) "/proj").
  vm_compute. reflexivity.
Defined.

(** X3. When no root directory is given, a directory that
    [findProjectRoot] returns holds a lock file of yarn, pnpm or npm, and
    no longer directory of the search holds one. *)
Theorem findProjectRoot_finds_lockfile
    (cwd : string) (fs : gmap string Node) (dir : string) :
  JS.startsWithSlash cwd = true ->
  Helper.findProjectRoot cwd None fs = Some (Some dir) ->
  Helper.searchedFrom cwd cwd dir
  /\ (exists lock,
         In lock ["yarn.lock"; "pnpm-lock.yaml"; "package-lock.json"]
         /\ EffectFs.safeFileExists fs (NodePath.join [dir; lock]) = true)
  /\ (forall deeper lock,
         Helper.searchedFrom cwd cwd deeper ->
         (String.length dir < String.length deeper)%nat ->
         In lock ["yarn.lock"; "pnpm-lock.yaml"; "package-lock.json"] ->
         EffectFs.safeFileExists fs (NodePath.join [deeper; lock]) = false).
Proof.
  intros Habs H. unfold Helper.findProjectRoot in H.
  destruct (Helper.findUpEffect cwd (Helper.searchFuel cwd cwd) Helper.lockfiles cwd fs)
    as [[d | e |]|] eqn:E; simpl in H; try discriminate.
  injection H as <-.
  exact (FindUpResults.findUpEffect_found cwd Habs fs Helper.lockfiles _ _ _ E).
Qed.

Lemma findProjectRoot_finds_lockfile_witness :
  exists lock,
    In lock ["yarn.lock"; "pnpm-lock.yaml"; "package-lock.json"]
    /\ EffectFs.safeFileExists (<["/proj/pnpm-lock.yaml" := File "" 420 1]> Sample.tree)
         (NodePath.join ["/proj"; lock]) = true.
Proof.
  apply (findProjectRoot_finds_lockfile "/proj/lib"
           (<["/proj/pnpm-lock.yaml" := File "" 420 1]> Sample.tree) "/proj" eq_refl).
  vm_compute. reflexivity.
Defined.

(** X4. With an absolute working directory, the root of every path is
    [/], and [isPathRoot] holds exactly for the paths that resolve to
    [/]; in particular it holds for no path with a parent to go to. *)
Theorem isPathRoot_iff (cwd p : string) :
  JS.startsWithSlash cwd = true ->
  Helper.rootOf cwd p = "/"
  /\ (Helper.isPathRoot cwd p = true <-> NodePath.resolve cwd [p] = "/")
  /\ (Helper.isPathRoot cwd p = false ->
      (String.length (NodePath.dirname (NodePath.resolve cwd [p]))
       < String.length (NodePath.resolve cwd [p]))%nat).
Proof.
  intros Habs.
  assert (Helper.rootOf cwd p = "/") as Hroot.
  { unfold Helper.rootOf, NodePath.parseRoot.
    now rewrite (PathFacts.resolve_absolute cwd Habs p). }
  split; [exact Hroot|].
  assert (Helper.isPathRoot cwd p = true <-> NodePath.resolve cwd [p] = "/") as Hiff.
  { unfold Helper.isPathRoot. rewrite Hroot, String.eqb_eq. split; congruence. }
  split; [exact Hiff|].
  intros Hfalse. apply PathFacts.dirname_shorter.
  - apply PathFacts.resolve_absolute, Habs.
  - intros E. apply Hiff in E. congruence.
Qed.

Lemma isPathRoot_iff_witness :
  Helper.rootOf "/proj/lib" "../.." = "/"
  /\ Helper.isPathRoot "/proj/lib" "../.." = true.
Proof.
  destruct (isPathRoot_iff "/proj/lib" "../.." eq_refl) as (Hroot & Hiff & _).
  split; [exact Hroot|]. apply Hiff. vm_compute. reflexivity.
Defined.

(** ** [trimExtension] and the name of the staging directory *)

(** X5. [trimExtension] always returns the beginning of the entry: what it
    cuts from the end is as long as the extension, and is the whole entry
    when there is no extension. *)
Theorem trimExtension_prefix (entry : string) :
  exists rest,
    entry = trimExtension entry +:+ rest
    /\ String.length (trimExtension entry)
       = if String.eqb (NodePath.extname entry) ""
         then 0%nat
         else (String.length entry - String.length (NodePath.extname entry))%nat.
Proof.
  destruct (String.eqb (NodePath.extname entry) "") eqn:E.
  - apply String.eqb_eq in E. rewrite (TrimExtension.trim_no_extension entry E).
    exists entry. split; reflexivity.
  - apply String.eqb_neq in E. unfold trimExtension.
    remember (NodePath.extname entry) as ext eqn:Hext. clear Hext.
    assert (0 < String.length ext)%nat as Hpos
      by (destruct ext; [contradiction | simpl; lia]).
    set (n := (String.length entry - String.length ext)%nat).
    assert (JS.slice entry 0 (- JS.len ext) = String.substring 0 n entry) as ->.
    { unfold JS.slice, JS.len.
      destruct (- Z.of_nat (String.length ext) <? 0) eqn:E1; [|lia].
      change (0 <? 0) with false. cbv iota.
      replace (Z.min 0 (Z.of_nat (String.length entry))) with 0 by lia.
      replace (Z.to_nat
                 (Z.max (Z.max (Z.of_nat (String.length entry)
                                + - Z.of_nat (String.length ext)) 0 - 0) 0))
        with n by (unfold n; lia).
      reflexivity. }
    exists (String.substring n (String.length entry - n) entry). split.
    + apply StringFacts.substring_split. unfold n. lia.
    + apply PathFacts.length_substring_prefix. unfold n. lia.
Qed.

(** X6. The name of the staging directory tells the time of the call: two
    calls for the same archive at different times get different names. *)
Theorem tempDirName_injective (now1 now2 : Z) (zipPath : string) :
  Helper.tempDirName now1 zipPath = Helper.tempDirName now2 zipPath ->
  now1 = now2.
Proof.
  unfold Helper.tempDirName. intros H.
  apply (inj (String.app _)) in H. apply (inj (String.app _)) in H.
  exact (inj pretty _ _ H).
Qed.

Lemma tempDirName_injective_witness : 1700 = 1700.
Proof.
  apply (tempDirName_injective 1700 1700 "/out/hello1.zip"). reflexivity.
Defined.

(** ** The internal writer: edges *)

Module NodeZipEdges.
Import Helper EffFacts FsFacts NodeZipFacts ZipFacts.

Lemma opened_other now zipPath (fs : gmap string Node) q :
  q <> zipPath -> opened now zipPath fs !! q = fs !! q.
Proof.
  intros Hq. unfold opened.
  destruct (fs !! zipPath) as [[b m t | m t]|]; now rewrite lookup_insert_ne.
Qed.

Lemma opened_at now zipPath (fs : gmap string Node) :
  exists m, opened now zipPath fs !! zipPath = Some (File "" m now)
            /\ (forall b m' t, fs !! zipPath = Some (File b m' t) -> m = m').
Proof.
  unfold opened. destruct (fs !! zipPath) as [[b m t | m t]|];
    rewrite lookup_insert_eq; eexists; split; try reflexivity;
    intros ? ? ? [= ]; congruence.
Qed.

Lemma andThen_Fail {A B} (m : Eff A) (k : A -> Eff B) fs e fs1 :
  m fs = (Fail e, fs1) -> andThen m k fs = (Fail e, fs1).
Proof. unfold andThen. now intros ->. Qed.

Section Writer.
Variable archiver : list ZipEntry -> ArchiveStream.


(** Whatever the outcome, [nodeZip] changes the tree at [zipPath] only. *)
Lemma nodeZip_frame now zipPath (files : IFiles) fs o fs' q :
  nodeZip archiver now zipPath files fs = (o, fs') ->
  q <> zipPath ->
  fs' !! q = fs !! q.
Proof.
  intros H Hq.
  apply nodeZip_inv in H
    as [(b & m & _ & _ & ->) | [(p & msg & m & _ & _ & ->)
                               | [(g & _ & _ & _ & ->) | (_ & -> & _)]]];
    rewrite ?lookup_insert_ne by congruence;
    try reflexivity; try (now apply opened_other).
  destruct (NodeFs.opens fs zipPath); [now apply opened_other | reflexivity].
Qed.



End Writer.

End NodeZipEdges.

(** X7. Whatever the outcome, [nodeZip] changes the tree at [zipPath]
    only: no source and no other path is created, changed or removed. *)
Theorem nodeZip_touches_only_zipPath
    (archiver : list Helper.ZipEntry -> Helper.ArchiveStream)
    (now : Z) (zipPath : string) (files : IFiles) (fs fs' : gmap string Node)
    (o : Outcome unit) (q : string) :
  Helper.nodeZip archiver now zipPath files fs = (o, fs') ->
  q <> zipPath ->
  fs' !! q = fs !! q.
Proof.
  intros H Hq. exact (NodeZipEdges.nodeZip_frame archiver _ _ _ _ _ _ _ H Hq).
Qed.

Lemma nodeZip_touches_only_zipPath_witness :
  (Helper.nodeZip Sample.broken 1700 "/out/hello1.zip" Sample.files Sample.disk).2
    !! "/proj/a.js"
  = Sample.disk !! "/proj/a.js".
Proof.
  apply (nodeZip_touches_only_zipPath Sample.broken 1700 "/out/hello1.zip"
           Sample.files Sample.disk _
           (Fail (ArchiverError "write failed"))).
  - vm_compute. reflexivity.
  - discriminate.
Defined.



(** X9. When the archive path is itself a file of the list, the stream has
    emptied that file before it is read: its entry is there with its mode
    and without bytes. *)
Theorem nodeZip_archives_itself_empty
    (now : Z) (zipPath : string) (files : IFiles) (fs fs' : gmap string Node)
    (entries : list Helper.ZipEntry) (file : IFile) (bytes : string) (m t : Z) :
  Helper.appended now zipPath files fs = (Done entries, fs') ->
  In file files ->
  rootPath file = zipPath ->
  fs !! zipPath = Some (File bytes m t) ->
  In (Helper.mkZipEntry (localPath file) "" (Some m) 0) entries
  /\ fs' !! zipPath = Some (File "" m now).
Proof.
  intros H Hin Hroot Hfile.
  apply NodeZipFacts.appended_inv in H
    as [([= ->] & -> & _) | [(e & ? & _) | (? & _)]]; try discriminate.
  destruct (NodeZipEdges.opened_at now zipPath fs) as (m' & Hopen & Hm).
  rewrite (Hm _ _ _ Hfile) in Hopen. split; [|exact Hopen].
  apply (NodeZipFacts.entriesOf_In _ files file "" m now Hin).
  now rewrite Hroot.
Qed.

Lemma nodeZip_archives_itself_empty_witness :
  In (Helper.mkZipEntry "a.js" "" (Some 420) 0)
     (Helper.entriesOf (Helper.opened 1700 "/proj/a.js" Sample.disk) Sample.files).
Proof.
  apply (nodeZip_archives_itself_empty 1700 "/proj/a.js" Sample.files Sample.disk
           (Helper.opened 1700 "/proj/a.js" Sample.disk)
           (Helper.entriesOf (Helper.opened 1700 "/proj/a.js" Sample.disk)
              Sample.files)
           (mkIFile "a.js" "/proj/a.js") "AAA" 420 11).
  - vm_compute. reflexivity.
  - simpl. auto.
  - reflexivity.
  - vm_compute. reflexivity.
Defined.



(** ** [zip]: what it changes, when it fails *)

Module ZipEdges.
Import Helper EffFacts FsFacts NodeZipFacts ZipFacts NodeZipEdges.

(** Staging succeeds when every source is there and no staged path covers
    a source. *)
Lemma staging_total now temp (files : IFiles) :
  forall fs,
    (forall file, In file files -> is_Some (fs !! rootPath file)) ->
    (forall g file, In g files -> In file files ->
                    inside (stagedPath temp g) (rootPath file) = false) ->
    exists staged, staging now temp files fs = (Done tt, staged).
Proof.
  unfold staging. induction files as [|g rest IH]; intros fs Hall Hout; simpl.
  - now eexists.
  - destruct (EffectFs.copy now (rootPath g) (stagedPath temp g) fs)
      as [o fs1] eqn:Hc.
    pose proof Hc as Hc'.
    apply copy_inv in Hc' as [[-> Hframe] | (_ & _ & Hnone)].
    + unfold copyFileEffect. fold (stagedPath temp g).
      rewrite (andThen_Done _ _ _ _ _ Hc).
      apply IH.
      * intros file Hin. rewrite Hframe by (apply Hout; [now left | now right]).
        apply Hall. now right.
      * intros g' file Hg' Hfile. apply Hout; now right.
    + destruct (Hall g (or_introl eq_refl)) as [n Hn]. congruence.
Qed.

(** Staging stops at the first source that is missing. *)
Lemma staging_first_missing now temp (before after : IFiles) file fs :
  (forall g, In g before -> is_Some (fs !! rootPath g)) ->
  (forall g h, In g before -> In h before ->
               inside (stagedPath temp g) (rootPath h) = false) ->
  fs !! rootPath file = None ->
  (forall g, In g before -> inside (stagedPath temp g) (rootPath file) = false) ->
  exists mid,
    staging now temp (before ++ file :: after) fs
    = (Fail (SystemError "copy" (rootPath file)), mid).
Proof.
  intros Hall Hout Hfile Hfree.
  destruct (staging_total now temp before fs Hall Hout) as [mid Hmid].
  exists mid. unfold staging in *. rewrite forEach_app.
  rewrite (andThen_Done _ _ _ _ _ Hmid). simpl.
  apply andThen_Fail. unfold copyFileEffect, EffectFs.copy.
  apply (staging_inv now temp before) in Hmid as [_ Hframe].
  rewrite Hframe by exact Hfree. now rewrite Hfile.
Qed.

Section Runs.
Variable tmpdir : string.
Variable bestzip : string -> string -> Eff unit.
Variable archiver : list ZipEntry -> ArchiveStream.

(** With the internal writer, a call that returns has changed nothing but
    the archive and its folder. *)
Lemma zip_frame now zipPath (files : IFiles) useNativeZip fs o fs' q :
  zip tmpdir bestzip archiver now zipPath files useNativeZip fs = (o, fs') ->
  useNativeZip <> Some true ->
  o <> Unsettled ->
  (forall file, In file files ->
     inside (stagingDir tmpdir now zipPath)
       (stagedPath (stagingDir tmpdir now zipPath) file) = true) ->
  q <> zipPath ->
  q <> NodePath.dirname zipPath ->
  fs' !! q = fs !! q.
Proof.
  intros H Hnode Hsettled Hin Hzip Hdir. apply zip_run in H.
  assert (forall fs3,
             occupied (stagingDir tmpdir now zipPath) fs = false ->
             (inside (stagingDir tmpdir now zipPath) q = false ->
              fs3 !! q = fs !! q) ->
             removeTree (stagingDir tmpdir now zipPath) fs3 !! q = fs !! q)
    as Hclose.
  { intros fs3 Hocc Hframe.
    destruct (inside (stagingDir tmpdir now zipPath) q) eqn:Hq.
    - rewrite removeTree_inside by exact Hq.
      symmetry. exact (occupied_false _ _ Hocc q Hq).
    - rewrite removeTree_outside by exact Hq. now apply Hframe. }
  inversion H as [ | e fs1 Hocc Hst | staged e Hocc Hst Hmk
                   | staged prepared o3 fs3 Hocc Hst Hmk Har _ | ]; subst.
  - reflexivity.
  - apply Hclose; [exact Hocc|]. intros Hq.
    exact (staged_frame tmpdir now zipPath files fs _ _ q Hin Hst Hq).
  - apply Hclose; [exact Hocc|]. intros Hq.
    exact (staged_frame tmpdir now zipPath files fs _ _ q Hin Hst Hq).
  - apply Hclose; [exact Hocc|]. intros Hq.
    assert (fs3 !! q = prepared !! q) as ->.
    { unfold archiving in Har.
      destruct useNativeZip as [[|]|]; [now destruct Hnode| |];
        apply tryPromise_inv in Har
          as [(a & Hnz & _) | [(e & Hnz & _) | (Hnz & _)]];
        exact (nodeZip_frame archiver _ _ _ _ _ _ _ Hnz Hzip). }
    apply makePath_inv in Hmk as [(_ & _ & _ & Hother) | [? _]]; [|discriminate].
    rewrite Hother by exact Hdir.
    exact (staged_frame tmpdir now zipPath files fs _ _ q Hin Hst Hq).
  - now destruct Hsettled.
Qed.

(** A source that is missing: the call fails with the error of its copy
    and leaves the tree as it found it, whatever the strategy. *)
Lemma zip_first_missing now zipPath (before after : IFiles) file useNativeZip fs :
  occupied (stagingDir tmpdir now zipPath) fs = false ->
  (forall g, In g (before ++ file :: after) ->
     inside (stagingDir tmpdir now zipPath)
       (stagedPath (stagingDir tmpdir now zipPath) g) = true
     /\ inside (stagingDir tmpdir now zipPath) (rootPath g) = false) ->
  (forall g, In g before -> is_Some (fs !! rootPath g)) ->
  fs !! rootPath file = None ->
  zip tmpdir bestzip archiver now zipPath (before ++ file :: after) useNativeZip fs
  = (Fail (SystemError "copy" (rootPath file)), fs).
Proof.
  intros Hocc Hsep Hbefore Hfile.
  assert (forall g, In g before -> In g (before ++ file :: after)) as Hb
    by (intros g Hg; apply in_or_app; now left).
  assert (In file (before ++ file :: after)) as Hf
    by (apply in_or_app; right; now left).
  assert (forall q, inside (stagingDir tmpdir now zipPath) q = false ->
                    acquired tmpdir now zipPath fs !! q = fs !! q) as Hacq.
  { intros q Hq. unfold acquired. apply lookup_insert_ne. intros E.
    rewrite <- E, inside_refl in Hq. discriminate. }
  destruct (staging_first_missing now (stagingDir tmpdir now zipPath)
              before after file (acquired tmpdir now zipPath fs))
    as [mid Hmid].
  { intros g Hg. rewrite Hacq by apply (Hsep g (Hb g Hg)). now apply Hbefore. }
  { intros g h Hg Hh.
    exact (outside_trans _ _ _ (proj1 (Hsep g (Hb g Hg))) (proj2 (Hsep h (Hb h Hh)))). }
  { rewrite Hacq by apply (Hsep file Hf). exact Hfile. }
  { intros g Hg.
    exact (outside_trans _ _ _ (proj1 (Hsep g (Hb g Hg))) (proj2 (Hsep file Hf))). }
  destruct (zip tmpdir bestzip archiver now zipPath (before ++ file :: after)
              useNativeZip fs) as [o fs'] eqn:H.
  apply zip_run in H.
  inversion H as [ Hocc' | e fs1 _ Hst | staged e _ Hst _
                   | staged prepared o3 fs3 _ Hst _ _ _
                   | staged prepared fs3 _ Hst _ _ ]; subst;
    try congruence.
  rewrite Hmid in Hst. injection Hst as <- <-. f_equal.
  apply closed_scope; [exact Hocc|]. intros q Hq.
  eapply (staged_frame tmpdir now zipPath (before ++ file :: after) fs);
    [intros g Hg; apply (Hsep g Hg) | exact Hmid | exact Hq].
Qed.

End Runs.

End ZipEdges.

(** X11. With the internal writer, a call of [zip] that returns has
    changed nothing but the archive and the folder of the archive: the
    sources and every other path are as before, for a success as for a
    failure, when the files are staged inside the staging directory. *)
Theorem zip_touches_only_archive
    (tmpdir : string) (bestzip : string -> string -> Eff unit)
    (archiver : list Helper.ZipEntry -> Helper.ArchiveStream)
    (now : Z) (zipPath : string) (files : IFiles) (useNativeZip : option bool)
    (fs fs' : gmap string Node) (o : Outcome unit) (q : string) :
  Helper.zip tmpdir bestzip archiver now zipPath files useNativeZip fs = (o, fs') ->
  useNativeZip <> Some true ->
  o <> Unsettled ->
  (forall file, In file files ->
     inside (Helper.stagingDir tmpdir now zipPath)
       (Helper.stagedPath (Helper.stagingDir tmpdir now zipPath) file) = true) ->
  q <> zipPath ->
  q <> NodePath.dirname zipPath ->
  fs' !! q = fs !! q.
Proof.
  intros H Hnode Hsettled Hin Hzip Hdir.
  exact (ZipEdges.zip_frame tmpdir bestzip archiver now zipPath files useNativeZip
           fs o fs' q H Hnode Hsettled Hin Hzip Hdir).
Qed.

Lemma zip_touches_only_archive_witness :
  (Helper.zip "/tmp" Sample.noNative Sample.listing 1700 "/out/hello1.zip"
     Sample.files None Sample.tree).2 !! "/proj/run.sh"
  = Sample.tree !! "/proj/run.sh"
  /\ (Helper.zip "/tmp" Sample.noNative Sample.listing 1700 "/out/hello1.zip"
        Sample.files None Sample.tree).2 !! "/tmp/hello1-1700/a.js"
     = Sample.tree !! "/tmp/hello1-1700/a.js".
Proof.
  split;
    apply (zip_touches_only_archive "/tmp" Sample.noNative Sample.listing 1700
             "/out/hello1.zip" Sample.files None Sample.tree _ (Done tt));
    try discriminate;
    try (vm_compute; reflexivity);
    intros file [<- | [<- | [<- | []]]]; vm_compute; reflexivity.
Defined.

(** X12. When a source of the list is missing, a call of [zip] fails with
    the error of the copy of the first missing source, whatever the
    strategy, and leaves the tree exactly as it found it: what was staged
    is removed and the archive is not opened. *)
Theorem zip_missing_source_rolls_back
    (tmpdir : string) (bestzip : string -> string -> Eff unit)
    (archiver : list Helper.ZipEntry -> Helper.ArchiveStream)
    (now : Z) (zipPath : string) (before after : IFiles) (file : IFile)
    (useNativeZip : option bool) (fs : gmap string Node) :
  occupied (Helper.stagingDir tmpdir now zipPath) fs = false ->
  (forall g, In g (before ++ file :: after) ->
     inside (Helper.stagingDir tmpdir now zipPath)
       (Helper.stagedPath (Helper.stagingDir tmpdir now zipPath) g) = true
     /\ inside (Helper.stagingDir tmpdir now zipPath) (rootPath g) = false) ->
  (forall g, In g before -> is_Some (fs !! rootPath g)) ->
  fs !! rootPath file = None ->
  Helper.zip tmpdir bestzip archiver now zipPath (before ++ file :: after)
    useNativeZip fs
  = (Fail (SystemError "copy" (rootPath file)), fs).
Proof.
  intros Hocc Hsep Hbefore Hfile.
  exact (ZipEdges.zip_first_missing tmpdir bestzip archiver now zipPath before after
           file useNativeZip fs Hocc Hsep Hbefore Hfile).
Qed.

Lemma zip_missing_source_rolls_back_witness :
  Helper.zip "/tmp" Sample.noNative Sample.listing 1700 "/out/hello1.zip"
    ([mkIFile "a.js" "/proj/a.js"] ++ mkIFile "gone.js" "/proj/gone.js"
       :: [mkIFile "lib" "/proj/lib"]) (Some true) Sample.tree
  = (Fail (SystemError "copy" "/proj/gone.js"), Sample.tree).
Proof.
  apply (zip_missing_source_rolls_back "/tmp" Sample.noNative Sample.listing 1700
           "/out/hello1.zip" [mkIFile "a.js" "/proj/a.js"]
           [mkIFile "lib" "/proj/lib"] (mkIFile "gone.js" "/proj/gone.js")
           (Some true) Sample.tree).
  - vm_compute. reflexivity.
  - intros g [<- | [<- | [<- | []]]]; vm_compute; auto.
  - intros g [<- | []]. vm_compute. eauto.
  - vm_compute. reflexivity.
Defined.

(** ** [zip]: the call that does not return *)




